(** * The trade ledger of pump_bot: [src/modules/trade_manager.py]

    A shallow embedding of [TradeManager] (trades, positions, cash balance)
    and of the operations [add_funds], [place_trade], [execute_trade],
    [cancel_trade], [_update_position], [_has_sufficient_position],
    [get_trade_history], [get_all_positions] and [get_portfolio_value].

    The ledger is embedded twice, for the two ways of reading its numbers.
    - At top level a float is read as the number it stands for, an exact
      rational ([Q]), and the comparisons of the source ([<], [>=], [==])
      are the decidable tests on [Q].  This reading serves what does not
      turn on rounding: trade ids and the keys of the dicts, statuses, the
      order of the history, the interleaving of the statements of calls
      that run side by side, quantities that cancel exactly.
    - In module [Ieee] a float is what Python computes with, a binary64
      number.  Every statement about an amount the code computes, or about
      the outcome of a guard on amounts, is made there.

    Conventions common to both.
    - [self.trades] is a Python dict, whose iteration order is insertion
      order and which [get_trade_history] sorts stably: it is an
      association list in insertion order.  [self.positions] is looked up
      and updated by key in every operation embedded here: it is a [gmap].
    - A method mutating [self] is a function returning the new manager next
      to the method's result.
    - [datetime.now()] is an input of [place_trade]: the first reading only
      enters the trade id through the text the f-string prints for it, the
      second is stored in the trade. *)

From Stdlib Require Import Floats.
From Stdlib Require Import QArith Qfield Lqa Sorted.
From stdpp Require Import gmap strings list.

Open Scope string_scope.
Open Scope Q_scope.

(* A decimal float literal denotes the nearest binary64 number, as it does
   in Python. *)
Set Warnings "-inexact-float".

(** ** Data model *)

Inductive TradeType := BUY | SELL.

Definition TradeType_value (t : TradeType) : string :=
  match t with BUY => "buy" | SELL => "sell" end.

Inductive TradeStatus := PENDING | EXECUTED | CANCELLED.

Definition TradeStatus_eqb (a b : TradeStatus) : bool :=
  match a, b with
  | PENDING, PENDING | EXECUTED, EXECUTED | CANCELLED, CANCELLED => true
  | _, _ => false
  end.

(** A [datetime], in microseconds since the epoch. *)
Definition datetime := Z.

Record Trade := mkTrade {
  id : string;
  symbol : string;
  trade_type : TradeType;
  quantity : Q;
  price : Q;
  timestamp : datetime;
  status : TradeStatus
}.

Record Position := mkPosition {
  pos_symbol : string;
  pos_quantity : Q;
  avg_price : Q;
  market_value : Q
}.

(** ** Python dicts in insertion order *)

Module Dict.

Fixpoint get {V : Type} (d : list (string * V)) (k : string) : option V :=
  match d with
  | [] => None
  | (k', v) :: d' => if String.eqb k' k then Some v else get d' k
  end.

(** [d[k] = v]: an existing key keeps its place, a new key goes last. *)
Fixpoint set {V : Type} (d : list (string * V)) (k : string) (v : V)
  : list (string * V) :=
  match d with
  | [] => [(k, v)]
  | (k', v') :: d' =>
      if String.eqb k' k then (k', v) :: d' else (k', v') :: set d' k v
  end.

Definition values {V : Type} (d : list (string * V)) : list V := map snd d.

End Dict.

Record TradeManager := mkTradeManager {
  trades : list (string * Trade);
  positions : gmap string Position;
  balance : Q
}.

(** [TradeManager.__init__]: no trades, no positions, balance [0.0]. *)
Definition init : TradeManager :=
  {| trades := []; positions := ∅; balance := 0 |}.

(** ** Comparisons and the truth value of a float *)

Definition Qlt_bool (x y : Q) : bool := negb (Qle_bool y x).

(** [a or b] on an optional float: [None] and [0.0] are falsy. *)
Definition py_or (a : option Q) (b : Q) : Q :=
  match a with
  | Some x => if Qeq_bool x 0 then b else x
  | None => b
  end.

(** ** The operations *)

(** [add_funds] *)
Definition add_funds (self : TradeManager) (amount : Q) : TradeManager :=
  if Qlt_bool 0 amount
  then {| trades := trades self; positions := positions self;
          balance := balance self + amount |}
  else self.

(** The f-string [f"{symbol}_{trade_type.value}_{datetime.now().timestamp()}"];
    [stamp] is the text printed for the clock reading. *)
Definition trade_id_of (sym : string) (side : TradeType) (stamp : string) : string :=
  sym ++ "_" ++ TradeType_value side ++ "_" ++ stamp.

(** [place_trade] *)
Definition place_trade (self : TradeManager) (sym : string) (side : TradeType)
    (qty prc : Q) (stamp : string) (now : datetime) : string * TradeManager :=
  let trade_id := trade_id_of sym side stamp in
  let trade := {| id := trade_id; symbol := sym; trade_type := side;
                  quantity := qty; price := prc; timestamp := now;
                  status := PENDING |} in
  (trade_id,
   {| trades := Dict.set (trades self) trade_id trade;
      positions := positions self; balance := balance self |}).

(** [_update_position], on the positions dict. *)
Definition _update_position (ps : gmap string Position) (sym : string)
    (qty prc : Q) : gmap string Position :=
  let pos := default (mkPosition sym 0 0 0) (ps !! sym) in
  let pos' :=
    if Qeq_bool (pos_quantity pos) 0 then
      {| pos_symbol := pos_symbol pos; pos_quantity := qty;
         avg_price := prc; market_value := qty * prc |}
    else
      let total_value := pos_quantity pos * avg_price pos + qty * prc in
      let new_quantity := pos_quantity pos + qty in
      {| pos_symbol := pos_symbol pos; pos_quantity := new_quantity;
         avg_price := if negb (Qeq_bool new_quantity 0)
                      then total_value / new_quantity else 0;
         market_value := new_quantity * prc |} in
  <[sym := pos']> ps.

(** [_has_sufficient_position] *)
Definition _has_sufficient_position (ps : gmap string Position) (sym : string)
    (qty : Q) : bool :=
  match ps !! sym with
  | None => false
  | Some pos => Qle_bool qty (pos_quantity pos)
  end.

(** The two assignments that close [execute_trade]:
    [trade.status = EXECUTED; trade.price = exec_price]. *)
Definition mark_executed (trade : Trade) (exec_price : Q) : Trade :=
  {| id := id trade; symbol := symbol trade; trade_type := trade_type trade;
     quantity := quantity trade; price := exec_price;
     timestamp := timestamp trade; status := EXECUTED |}.

(** [execute_trade] *)
Definition execute_trade (self : TradeManager) (trade_id : string)
    (execution_price : option Q) : bool * TradeManager :=
  match Dict.get (trades self) trade_id with
  | None => (false, self)
  | Some trade =>
      if negb (TradeStatus_eqb (status trade) PENDING) then (false, self)
      else
        let exec_price := py_or execution_price (price trade) in
        let total_cost := exec_price * quantity trade in
        match trade_type trade with
        | BUY =>
            if Qlt_bool (balance self) total_cost then (false, self)
            else
              (true,
               {| trades := Dict.set (trades self) trade_id
                              (mark_executed trade exec_price);
                  positions := _update_position (positions self)
                                 (symbol trade) (quantity trade) exec_price;
                  balance := balance self - total_cost |})
        | SELL =>
            if negb (_has_sufficient_position (positions self)
                       (symbol trade) (quantity trade))
            then (false, self)
            else
              (true,
               {| trades := Dict.set (trades self) trade_id
                              (mark_executed trade exec_price);
                  positions := _update_position (positions self)
                                 (symbol trade) (- quantity trade) exec_price;
                  balance := balance self + total_cost |})
        end
  end.

Definition mark_cancelled (trade : Trade) : Trade :=
  {| id := id trade; symbol := symbol trade; trade_type := trade_type trade;
     quantity := quantity trade; price := price trade;
     timestamp := timestamp trade; status := CANCELLED |}.

(** [cancel_trade] *)
Definition cancel_trade (self : TradeManager) (trade_id : string)
  : bool * TradeManager :=
  match Dict.get (trades self) trade_id with
  | Some trade =>
      if TradeStatus_eqb (status trade) PENDING then
        (true,
         {| trades := Dict.set (trades self) trade_id (mark_cancelled trade);
            positions := positions self; balance := balance self |})
      else (false, self)
  | None => (false, self)
  end.

(** [get_position] *)
Definition get_position (self : TradeManager) (sym : string) : option Position :=
  positions self !! sym.

(** [get_trade_history]: [sorted(values, key=timestamp, reverse=True)].
    Python's sort is stable, also under [reverse=True]: trades with equal
    timestamps keep their insertion order. *)
Fixpoint insert_by_timestamp (t : Trade) (l : list Trade) : list Trade :=
  match l with
  | [] => [t]
  | u :: l' =>
      if (timestamp u <=? timestamp t)%Z then t :: u :: l'
      else u :: insert_by_timestamp t l'
  end.

Definition get_trade_history (self : TradeManager) : list Trade :=
  foldr insert_by_timestamp [] (Dict.values (trades self)).

(** ** Calls and runs *)

Inductive Call :=
| AddFunds (amount : Q)
| PlaceTrade (sym : string) (side : TradeType) (qty prc : Q)
             (stamp : string) (now : datetime)
| ExecuteTrade (trade_id : string) (execution_price : option Q)
| CancelTrade (trade_id : string).

Definition call (self : TradeManager) (c : Call) : TradeManager :=
  match c with
  | AddFunds amount => add_funds self amount
  | PlaceTrade sym side qty prc stamp now =>
      snd (place_trade self sym side qty prc stamp now)
  | ExecuteTrade trade_id execution_price =>
      snd (execute_trade self trade_id execution_price)
  | CancelTrade trade_id => snd (cancel_trade self trade_id)
  end.

Definition run (self : TradeManager) (cs : list Call) : TradeManager :=
  foldl call self cs.

(** The signed quantity of a trade: positive for BUY, negative for SELL. *)
Definition signed_quantity (t : Trade) : Q :=
  match trade_type t with BUY => quantity t | SELL => - quantity t end.

Definition status_of (self : TradeManager) (trade_id : string)
  : option TradeStatus :=
  status <$> Dict.get (trades self) trade_id.

(** ** When a settlement is refused *)

(** The guard of [execute_trade], read off its four [return False]. *)
Definition settle_refused (self : TradeManager) (trade_id : string)
    (execution_price : option Q) : Prop :=
  match Dict.get (trades self) trade_id with
  | None => True
  | Some trade =>
      status trade <> PENDING \/
      (trade_type trade = BUY /\
       balance self < py_or execution_price (price trade) * quantity trade) \/
      (trade_type trade = SELL /\
       match positions self !! symbol trade with
       | None => True
       | Some pos => pos_quantity pos < quantity trade
       end)
  end.

(** A ledger with one pending BUY of 1 unit at price 5 and 100 in cash. *)
Definition funded_pending_buy : TradeManager :=
  {| trades := [("T", mkTrade "T" "FOO" BUY 1 5 0%Z PENDING)];
     positions := ∅; balance := 100 |}.

(** The position [_update_position] starts from: the record of the symbol,
    or the [Position(symbol, 0, 0, 0)] it creates. *)
Definition prior_position (ps : gmap string Position) (sym : string) : Position :=
  default (mkPosition sym 0 0 0) (ps !! sym).

(** ** The life cycle of a trade *)

#[global] Instance TradeStatus_eq_dec : EqDecision TradeStatus.
Proof. solve_decision. Defined.

(** Settle, cancel and settle again the trade of [funded_pending_buy]. *)
Definition settle_cancel_settle : list Call :=
  [ExecuteTrade "T" None; CancelTrade "T"; ExecuteTrade "T" (Some 3)].

(** ** Fresh ids *)

(** Every [place_trade] of the run gets an id that is not in use. *)
Fixpoint fresh_ids (self : TradeManager) (cs : list Call) : Prop :=
  match cs with
  | [] => True
  | c :: cs' =>
      match c with
      | PlaceTrade sym side _ _ stamp _ =>
          Dict.get (trades self) (trade_id_of sym side stamp) = None
      | _ => True
      end /\ fresh_ids (call self c) cs'
  end.

(** ** Settlements running side by side

    [TradeManager] holds no lock and [execute_trade] takes none.  When the
    method runs in several threads, CPython may switch threads between any
    two statements.  A call in progress is a frame: its arguments and the
    statement it will run next, named by its line in [trade_manager.py].
    The local [trade] is a reference to the object stored under [trade_id];
    settlements never rebind a dict entry, so reads and writes through
    [trade] are reads and writes of that entry. *)

Inductive Point :=
| L74                                   (* if trade_id not in self.trades *)
| L77                                   (* trade = ...; if trade.status != PENDING *)
| L81                                   (* exec_price = ...; total_cost = ... *)
| L84 (exec_price total_cost : Q)       (* BUY or SELL, and the guard of either *)
| L87 (exec_price total_cost : Q)       (* self.balance -= total_cost *)
| L88 (exec_price : Q)                  (* self._update_position(..., quantity, ...) *)
| L92 (exec_price total_cost : Q)       (* self.balance += total_cost *)
| L93 (exec_price : Q)                  (* self._update_position(..., -quantity, ...) *)
| L95 (exec_price : Q)                  (* trade.status = EXECUTED *)
| L96 (exec_price : Q)                  (* trade.price = exec_price; return True *)
| Returned (result : bool).

Record Frame := mkFrame {
  fr_trade_id : string;
  fr_execution_price : option Q;
  fr_at : Point
}.

(** A call that has just been entered. *)
Definition enter (c : string * option Q) : Frame :=
  {| fr_trade_id := c.1; fr_execution_price := c.2; fr_at := L74 |}.

Definition with_status (t : Trade) (s : TradeStatus) : Trade :=
  {| id := id t; symbol := symbol t; trade_type := trade_type t;
     quantity := quantity t; price := price t; timestamp := timestamp t;
     status := s |}.

Definition with_price (t : Trade) (p : Q) : Trade :=
  {| id := id t; symbol := symbol t; trade_type := trade_type t;
     quantity := quantity t; price := p; timestamp := timestamp t;
     status := status t |}.

Definition with_balance (self : TradeManager) (b : Q) : TradeManager :=
  {| trades := trades self; positions := positions self; balance := b |}.

Definition with_positions (self : TradeManager) (ps : gmap string Position)
  : TradeManager :=
  {| trades := trades self; positions := ps; balance := balance self |}.

Definition with_trade (self : TradeManager) (k : string) (t : Trade)
  : TradeManager :=
  {| trades := Dict.set (trades self) k t; positions := positions self;
     balance := balance self |}.

(** One statement of one frame.  The statements grouped under one point
    run without a switch in between; a finer grain would only add
    schedules.  A frame past line 74 always finds its trade: the [None]
    branch after [L74] is never taken. *)
Definition step (self : TradeManager) (f : Frame) : TradeManager * Frame :=
  let at_ (p : Point) :=
    {| fr_trade_id := fr_trade_id f;
       fr_execution_price := fr_execution_price f; fr_at := p |} in
  match fr_at f, Dict.get (trades self) (fr_trade_id f) with
  | Returned _, _ => (self, f)
  | L74, None => (self, at_ (Returned false))
  | L74, Some _ => (self, at_ L77)
  | _, None => (self, f)
  | L77, Some trade =>
      if negb (TradeStatus_eqb (status trade) PENDING)
      then (self, at_ (Returned false))
      else (self, at_ L81)
  | L81, Some trade =>
      let exec_price := py_or (fr_execution_price f) (price trade) in
      let total_cost := exec_price * quantity trade in
      (self, at_ (L84 exec_price total_cost))
  | L84 exec_price total_cost, Some trade =>
      match trade_type trade with
      | BUY =>
          if Qlt_bool (balance self) total_cost
          then (self, at_ (Returned false))
          else (self, at_ (L87 exec_price total_cost))
      | SELL =>
          if negb (_has_sufficient_position (positions self)
                     (symbol trade) (quantity trade))
          then (self, at_ (Returned false))
          else (self, at_ (L92 exec_price total_cost))
      end
  | L87 exec_price total_cost, Some _ =>
      (with_balance self (balance self - total_cost), at_ (L88 exec_price))
  | L88 exec_price, Some trade =>
      (with_positions self
         (_update_position (positions self) (symbol trade) (quantity trade)
            exec_price),
       at_ (L95 exec_price))
  | L92 exec_price total_cost, Some _ =>
      (with_balance self (balance self + total_cost), at_ (L93 exec_price))
  | L93 exec_price, Some trade =>
      (with_positions self
         (_update_position (positions self) (symbol trade) (- quantity trade)
            exec_price),
       at_ (L95 exec_price))
  | L95 exec_price, Some trade =>
      (with_trade self (fr_trade_id f) (with_status trade EXECUTED),
       at_ (L96 exec_price))
  | L96 exec_price, Some trade =>
      (with_trade self (fr_trade_id f) (with_price trade exec_price),
       at_ (Returned true))
  end.

(** The manager and the frames of the calls in progress; a schedule names,
    step by step, the frame that runs its next statement. *)
Definition schedule_step (st : TradeManager * list Frame) (i : nat)
  : TradeManager * list Frame :=
  match st.2 !! i with
  | Some f => let '(self', f') := step st.1 f in (self', <[i := f']> st.2)
  | None => st
  end.

Definition run_schedule (st : TradeManager * list Frame) (sched : list nat)
  : TradeManager * list Frame :=
  foldl schedule_step st sched.

(** The longest path through [execute_trade] has eight statements. *)
Definition call_length : nat := 8.

(** The schedule of a lock around [execute_trade]: frame [i], then frame
    [i + 1], ..., each from entry to return. *)
Definition serial_from (i n : nat) : list nat :=
  flat_map (fun j => repeat j call_length) (seq i n).

(** The calls of a list run one after the other. *)
Fixpoint settle_each (self : TradeManager) (cs : list (string * option Q))
  : list bool * TradeManager :=
  match cs with
  | [] => ([], self)
  | c :: cs' =>
      let '(b, self1) := execute_trade self c.1 c.2 in
      let '(bs, self2) := settle_each self1 cs' in
      (b :: bs, self2)
  end.

(** One unit of FOO held, and two pending SELLs of one unit each. *)
Definition two_sells_one_unit : TradeManager :=
  {| trades := [("S1", mkTrade "S1" "FOO" SELL 1 5 0%Z PENDING);
                ("S2", mkTrade "S2" "FOO" SELL 1 5 1%Z PENDING)];
     positions := {["FOO" := mkPosition "FOO" 1 5 5]};
     balance := 0 |}.

(** Both frames pass the guard of line 90 before either moves on. *)
Definition both_pass_the_guard : list nat :=
  [0; 0; 0; 0; 1; 1; 1; 1; 0; 0; 0; 0; 1; 1; 1; 1]%nat.

(** [n] statements of one frame, nobody else running. *)
Fixpoint steps (n : nat) (self : TradeManager) (f : Frame)
  : TradeManager * Frame :=
  match n with
  | O => (self, f)
  | S n' => let '(self1, f1) := step self f in steps n' self1 f1
  end.

(** The frame of a call that has returned [b]. *)
Definition returned (c : string * option Q) (b : bool) : Frame :=
  {| fr_trade_id := c.1; fr_execution_price := c.2; fr_at := Returned b |}.

(** Calls that each settle a PENDING SELL of [q] units of [sym]. *)
Definition sells_of (self : TradeManager) (sym : string) (q : Q)
    (cs : list (string * option Q)) : Prop :=
  Forall (fun c => exists t,
            Dict.get (trades self) c.1 = Some t /\ status t = PENDING /\
            trade_type t = SELL /\ symbol t = sym /\ quantity t == q) cs.

(** ** The read-only operations *)

(** [get_all_positions]: the positions whose quantity is not zero. *)
Definition get_all_positions (self : TradeManager) : gmap string Position :=
  filter (fun kv => Qeq_bool (pos_quantity kv.2) 0 = false) (positions self).



(** [a] is at least as recent as [b]. *)
Definition newer_first (a b : Trade) : Prop :=
  (timestamp b <= timestamp a)%Z.

(** The trades of a list created at time [ts], in the order of the list. *)
Definition created_at (ts : datetime) (l : list Trade) : list Trade :=
  List.filter (fun t => (timestamp t =? ts)%Z) l.


(** ** What is recorded stays recorded *)

(** Two states of one order: the same id, symbol, side, quantity and
    creation time. *)
Definition same_order (t t' : Trade) : Prop :=
  id t' = id t /\ symbol t' = symbol t /\ trade_type t' = trade_type t /\
  quantity t' = quantity t /\ timestamp t' = timestamp t.

(** What may have happened to a recorded trade [t] that now reads [t']: it
    is the same order; if it was settled or cancelled before, nothing at
    all has changed; if it is still PENDING, nothing at all has changed. *)
Definition kept_as (t t' : Trade) : Prop :=
  same_order t t' /\
  (status t <> PENDING -> t' = t) /\
  (status t' = PENDING -> t' = t).

(** Every trade is stored under its own id, no id is stored twice, and
    every position is stored under its own symbol. *)
Record well_keyed (self : TradeManager) : Prop := {
  keyed_trades : forall k t, In (k, t) (trades self) -> id t = k;
  keyed_once : NoDup (trades self).*1;
  keyed_positions :
    forall sym pos, positions self !! sym = Some pos -> pos_symbol pos = sym
}.

(** * The ledger in floating point

    [quantity], [price], [balance] and the fields of a [Position] are
    Python floats: IEEE 754 binary64 numbers, which round, overflow to an
    infinity and turn into NaN.  Module [Ieee] embeds the ledger of
    [trade_manager.py] once more, statement by statement, over the primitive
    floats of Rocq, which are these numbers with these operations.  What is
    said below about an amount the code computes, or about the outcome of
    one of its comparisons, is said of this embedding.

    - [a + b], [a - b], [a * b], [a / b] and [-a] are the binary64
      operations (round to nearest, ties to even); none of them raises, and
      the one division of the source is guarded by [pos.quantity != 0].
    - [a < b], [a > b], [a >= b], [a == b] are [a <? b], [b <? a],
      [b <=? a], [a =? b], all false when an operand is NaN; [a != b] is
      the negation of [a =? b].
    - The truth value of a float is [x != 0.0]: [0.0] and [-0.0] are falsy,
      NaN is truthy.
    - The int literal [0] in [Position(symbol, 0, 0, 0)] and in
      [pos.avg_price = 0] is read as the float [0.0], to which it is equal
      and with which it agrees in every operation of the ledger.
    - Dicts, clock readings and mutation of [self] are embedded as above. *)

(** ** Floats that are not below zero *)

(** A float that is not below zero: a zero, a positive number, [+inf], or
    NaN. *)
Definition nonneg (x : float) : Prop := (x <? 0)%float = false.

(** The same on the specification of binary64. *)
Definition SFnonneg (x : spec_float) : bool :=
  match x with
  | S754_infinity true | S754_finite true _ _ => false
  | _ => true
  end.

Module Ieee.

Local Open Scope float_scope.

(** ** Data model *)

Record Trade := mkTrade {
  id : string;
  symbol : string;
  trade_type : TradeType;
  quantity : float;
  price : float;
  timestamp : datetime;
  status : TradeStatus
}.

Record Position := mkPosition {
  pos_symbol : string;
  pos_quantity : float;
  avg_price : float;
  market_value : float
}.

Record TradeManager := mkTradeManager {
  trades : list (string * Trade);
  positions : gmap string Position;
  balance : float
}.

(** [TradeManager.__init__]: no trades, no positions, balance [0.0]. *)
Definition init : TradeManager :=
  {| trades := []; positions := ∅; balance := 0 |}.

(** [a or b] on an optional float: [None], [0.0] and [-0.0] are falsy. *)
Definition py_or (a : option float) (b : float) : float :=
  match a with
  | Some x => if x =? 0 then b else x
  | None => b
  end.

(** ** The operations *)

(** [add_funds] *)
Definition add_funds (self : TradeManager) (amount : float) : TradeManager :=
  if 0 <? amount
  then {| trades := trades self; positions := positions self;
          balance := balance self + amount |}
  else self.

(** [place_trade] *)
Definition place_trade (self : TradeManager) (sym : string) (side : TradeType)
    (qty prc : float) (stamp : string) (now : datetime)
  : string * TradeManager :=
  let trade_id := trade_id_of sym side stamp in
  let trade := {| id := trade_id; symbol := sym; trade_type := side;
                  quantity := qty; price := prc; timestamp := now;
                  status := PENDING |} in
  (trade_id,
   {| trades := Dict.set (trades self) trade_id trade;
      positions := positions self; balance := balance self |}).

(** [_update_position], on the positions dict. *)
Definition _update_position (ps : gmap string Position) (sym : string)
    (qty prc : float) : gmap string Position :=
  let pos := default (mkPosition sym 0 0 0) (ps !! sym) in
  let pos' :=
    if pos_quantity pos =? 0 then
      {| pos_symbol := pos_symbol pos; pos_quantity := qty;
         avg_price := prc; market_value := qty * prc |}
    else
      let total_value := pos_quantity pos * avg_price pos + qty * prc in
      let new_quantity := pos_quantity pos + qty in
      {| pos_symbol := pos_symbol pos; pos_quantity := new_quantity;
         avg_price := if negb (new_quantity =? 0)
                      then total_value / new_quantity else 0;
         market_value := new_quantity * prc |} in
  <[sym := pos']> ps.

(** [_has_sufficient_position]: [positions[symbol].quantity >= quantity]. *)
Definition _has_sufficient_position (ps : gmap string Position) (sym : string)
    (qty : float) : bool :=
  match ps !! sym with
  | None => false
  | Some pos => qty <=? pos_quantity pos
  end.

(** The two assignments that close [execute_trade]:
    [trade.status = EXECUTED; trade.price = exec_price]. *)
Definition mark_executed (trade : Trade) (exec_price : float) : Trade :=
  {| id := id trade; symbol := symbol trade; trade_type := trade_type trade;
     quantity := quantity trade; price := exec_price;
     timestamp := timestamp trade; status := EXECUTED |}.

(** [execute_trade] *)
Definition execute_trade (self : TradeManager) (trade_id : string)
    (execution_price : option float) : bool * TradeManager :=
  match Dict.get (trades self) trade_id with
  | None => (false, self)
  | Some trade =>
      if negb (TradeStatus_eqb (status trade) PENDING) then (false, self)
      else
        let exec_price := py_or execution_price (price trade) in
        let total_cost := exec_price * quantity trade in
        match trade_type trade with
        | BUY =>
            if balance self <? total_cost then (false, self)
            else
              (true,
               {| trades := Dict.set (trades self) trade_id
                              (mark_executed trade exec_price);
                  positions := _update_position (positions self)
                                 (symbol trade) (quantity trade) exec_price;
                  balance := balance self - total_cost |})
        | SELL =>
            if negb (_has_sufficient_position (positions self)
                       (symbol trade) (quantity trade))
            then (false, self)
            else
              (true,
               {| trades := Dict.set (trades self) trade_id
                              (mark_executed trade exec_price);
                  positions := _update_position (positions self)
                                 (symbol trade) (- quantity trade) exec_price;
                  balance := balance self + total_cost |})
        end
  end.

Definition mark_cancelled (trade : Trade) : Trade :=
  {| id := id trade; symbol := symbol trade; trade_type := trade_type trade;
     quantity := quantity trade; price := price trade;
     timestamp := timestamp trade; status := CANCELLED |}.

(** [cancel_trade] *)
Definition cancel_trade (self : TradeManager) (trade_id : string)
  : bool * TradeManager :=
  match Dict.get (trades self) trade_id with
  | Some trade =>
      if TradeStatus_eqb (status trade) PENDING then
        (true,
         {| trades := Dict.set (trades self) trade_id (mark_cancelled trade);
            positions := positions self; balance := balance self |})
      else (false, self)
  | None => (false, self)
  end.

(** [get_position] *)
Definition get_position (self : TradeManager) (sym : string) : option Position :=
  positions self !! sym.

(** [get_trade_history]: [sorted(values, key=timestamp, reverse=True)], a
    stable sort. *)
Fixpoint insert_by_timestamp (t : Trade) (l : list Trade) : list Trade :=
  match l with
  | [] => [t]
  | u :: l' =>
      if (timestamp u <=? timestamp t)%Z then t :: u :: l'
      else u :: insert_by_timestamp t l'
  end.

Definition get_trade_history (self : TradeManager) : list Trade :=
  foldr insert_by_timestamp [] (Dict.values (trades self)).

(** ** Calls and runs *)

Inductive Call :=
| AddFunds (amount : float)
| PlaceTrade (sym : string) (side : TradeType) (qty prc : float)
             (stamp : string) (now : datetime)
| ExecuteTrade (trade_id : string) (execution_price : option float)
| CancelTrade (trade_id : string).

Definition call (self : TradeManager) (c : Call) : TradeManager :=
  match c with
  | AddFunds amount => add_funds self amount
  | PlaceTrade sym side qty prc stamp now =>
      snd (place_trade self sym side qty prc stamp now)
  | ExecuteTrade trade_id execution_price =>
      snd (execute_trade self trade_id execution_price)
  | CancelTrade trade_id => snd (cancel_trade self trade_id)
  end.

Definition run (self : TradeManager) (cs : list Call) : TradeManager :=
  foldl call self cs.

(** The signed quantity of a trade: as it is for BUY, negated for SELL. *)
Definition signed_quantity (t : Trade) : float :=
  match trade_type t with BUY => quantity t | SELL => - quantity t end.

Definition status_of (self : TradeManager) (trade_id : string)
  : option TradeStatus :=
  status <$> Dict.get (trades self) trade_id.

(** ** When a settlement is refused *)

(** The guard of [execute_trade], read off its four [return False]. *)
Definition settle_refused (self : TradeManager) (trade_id : string)
    (execution_price : option float) : Prop :=
  match Dict.get (trades self) trade_id with
  | None => True
  | Some trade =>
      status trade <> PENDING \/
      (trade_type trade = BUY /\
       (balance self <? py_or execution_price (price trade) * quantity trade)
       = true) \/
      (trade_type trade = SELL /\
       match positions self !! symbol trade with
       | None => True
       | Some pos => (quantity trade <=? pos_quantity pos) = false
       end)
  end.




(** A ledger with one pending BUY of 1 unit at price 5 and no cash. *)
Definition one_pending_buy : TradeManager :=
  {| trades := [("T", mkTrade "T" "FOO" BUY 1 5 0%Z PENDING)];
     positions := ∅; balance := 0 |}.



(** The same pending BUY as in [one_pending_buy], with 100 in cash. *)
Definition funded_pending_buy : TradeManager :=
  {| trades := [("T", mkTrade "T" "FOO" BUY 1 5 0%Z PENDING)];
     positions := ∅; balance := 100 |}.

(** A balance of 1.0 and a pending BUY of 10 units at 0.1: in binary64
    [0.1 * 10.0] is [1.0]. *)
Definition ten_dimes : TradeManager :=
  {| trades := [("T", mkTrade "T" "FOO" BUY 10 0.1 0%Z PENDING)];
     positions := ∅; balance := 1 |}.

(** The two guards that let a PENDING trade through at price [P]: the
    balance is not below [P * quantity] for a BUY, the position suffices for
    a SELL. *)
Definition covered (self : TradeManager) (trade : Trade) (P : float) : bool :=
  match trade_type trade with
  | BUY => negb (balance self <? P * quantity trade)
  | SELL => _has_sufficient_position (positions self) (symbol trade)
              (quantity trade)
  end.

(** What a settlement of [trade] at price [P] leaves. *)
Definition settled_at (self : TradeManager) (trade_id : string)
    (trade : Trade) (P : float) : TradeManager :=
  {| trades := Dict.set (trades self) trade_id (mark_executed trade P);
     positions := _update_position (positions self) (symbol trade)
                    (signed_quantity trade) P;
     balance := match trade_type trade with
                | BUY => balance self - P * quantity trade
                | SELL => balance self + P * quantity trade
                end |}.

(** The position [_update_position] starts from: the record of the symbol,
    or the [Position(symbol, 0, 0, 0)] it creates. *)
Definition prior_position (ps : gmap string Position) (sym : string)
  : Position :=
  default (mkPosition sym 0 0 0) (ps !! sym).

(** 10 FOO held at an average of 5, and a pending SELL of 4 of them at 6. *)
Definition ten_held_four_sold : TradeManager :=
  {| trades := [("S", mkTrade "S" "FOO" SELL 4 6 0%Z PENDING)];
     positions := {[ "FOO" := mkPosition "FOO" 10 5 50 ]}; balance := 0 |}.

(** ** The life cycle of a trade *)

(** The calls that settle or cancel. *)
Definition lifecycle_call (c : Call) : Prop :=
  match c with
  | ExecuteTrade _ _ | CancelTrade _ => True
  | AddFunds _ | PlaceTrade _ _ _ _ _ _ => False
  end.

(** The boolean a settle or cancel call returns. *)
Definition lifecycle_result (self : TradeManager) (c : Call) : option bool :=
  match c with
  | ExecuteTrade trade_id execution_price =>
      Some (fst (execute_trade self trade_id execution_price))
  | CancelTrade trade_id => Some (fst (cancel_trade self trade_id))
  | AddFunds _ | PlaceTrade _ _ _ _ _ _ => None
  end.

(** How many calls of a run change the status of [trade_id]. *)
Fixpoint transitions (self : TradeManager) (cs : list Call) (trade_id : string)
  : nat :=
  match cs with
  | [] => 0
  | c :: cs' =>
      (if decide (status_of (call self c) trade_id = status_of self trade_id)
       then 0 else 1)
      + transitions (call self c) cs' trade_id
  end%nat.

(** A status after which nothing may happen to a trade. *)
Definition terminal (s : option TradeStatus) : Prop :=
  s = Some EXECUTED \/ s = Some CANCELLED.

(** Settle, cancel and settle again the trade of [funded_pending_buy]. *)
Definition settle_cancel_settle : list Call :=
  [ExecuteTrade "T" None; CancelTrade "T"; ExecuteTrade "T" (Some 3)].

(** ** Reachable states *)

(** Calls whose quantities are positive and whose prices are not negative. *)
Definition wellformed_call (c : Call) : Prop :=
  match c with
  | AddFunds _ => True
  | PlaceTrade _ _ qty prc _ _ => (0 <? qty) = true /\ (0 <=? prc) = true
  | ExecuteTrade _ (Some p) => (0 <=? p) = true
  | ExecuteTrade _ None => True
  | CancelTrade _ => True
  end.

(** What such calls maintain: no balance below zero, no position below
    zero, and only trades of positive quantity and non-negative price. *)
Record solvent (self : TradeManager) : Prop := {
  solvent_balance : nonneg (balance self);
  solvent_positions :
    forall sym pos, positions self !! sym = Some pos ->
                    nonneg (pos_quantity pos);
  solvent_trades :
    forall k t, Dict.get (trades self) k = Some t ->
                (0 <? quantity t) = true /\ (0 <=? price t) = true
}.

(** Fund the account, buy 10 FOO at 5, sell 4 of them at 6. *)
Definition fund_buy_sell : list Call :=
  [AddFunds 100;
   PlaceTrade "FOO" BUY 10 5 "1700000000.25" 1700000000250000%Z;
   ExecuteTrade "FOO_buy_1700000000.25" None;
   PlaceTrade "FOO" SELL 4 6 "1700000001.5" 1700000001500000%Z;
   ExecuteTrade "FOO_sell_1700000001.5" None].

(** Two deposits of 1e308 overflow the balance to [+inf]; a BUY of 1e308
    units at 1e308 costs [+inf] as well, passes [inf < inf] and leaves the
    balance [inf - inf]. *)
Definition overflowing_buy : list Call :=
  [AddFunds 1e308; AddFunds 1e308;
   PlaceTrade "FOO" BUY 1e308 1e308 "1700000000.25" 1700000000250000%Z;
   ExecuteTrade "FOO_buy_1700000000.25" None].

(** Two free BUYs of 1e308 units overflow the position to [+inf]; a SELL of
    [+inf] units passes [inf >= inf] and leaves the position [inf - inf]. *)
Definition overflowing_sell : list Call :=
  [PlaceTrade "FOO" BUY 1e308 0 "1700000000.25" 1700000000250000%Z;
   ExecuteTrade "FOO_buy_1700000000.25" None;
   PlaceTrade "FOO" BUY 1e308 0 "1700000000.5" 1700000000500000%Z;
   ExecuteTrade "FOO_buy_1700000000.5" None;
   PlaceTrade "FOO" SELL infinity 0 "1700000001.5" 1700000001500000%Z;
   ExecuteTrade "FOO_sell_1700000001.5" None].

(** ** Positions against executed trades *)

Definition executed_on (sym : string) (t : Trade) : bool :=
  TradeStatus_eqb (status t) EXECUTED && String.eqb (symbol t) sym.

(** The EXECUTED trades on [sym] in the trade set, in dict order. *)
Fixpoint executed_trades (ts : list (string * Trade)) (sym : string)
  : list Trade :=
  match ts with
  | [] => []
  | (_, t) :: ts' =>
      if executed_on sym t then t :: executed_trades ts' sym
      else executed_trades ts' sym
  end.

(** The quantity [_update_position] leaves where [held] was held and
    [delta] comes in. *)
Definition take_in (held delta : float) : float :=
  if held =? 0 then delta else held + delta.

(** The signed quantities of the trades of [l], taken in one after the
    other from a position of [0]. *)
Definition accumulated (l : list Trade) : float :=
  foldl (fun held t => take_in held (signed_quantity t)) 0 l.

(** The trades on [sym] that the calls of [cs] settle, as they are recorded
    when settled, in the order of the calls. *)
Fixpoint settlements (self : TradeManager) (cs : list Call) (sym : string)
  : list Trade :=
  match cs with
  | [] => []
  | c :: cs' =>
      match c with
      | ExecuteTrade trade_id p =>
          match Dict.get (trades self) trade_id with
          | Some trade =>
              if fst (execute_trade self trade_id p)
                 && String.eqb (symbol trade) sym
              then [mark_executed trade (py_or p (price trade))]
              else []
          | None => []
          end
      | _ => []
      end ++ settlements (call self c) cs' sym
  end%list.

(** No [place_trade] of the run gets the id of an EXECUTED trade. *)
Fixpoint no_executed_replaced (self : TradeManager) (cs : list Call) : Prop :=
  match cs with
  | [] => True
  | c :: cs' =>
      match c with
      | PlaceTrade sym side _ _ stamp _ =>
          status_of self (trade_id_of sym side stamp) <> Some EXECUTED
      | _ => True
      end /\ no_executed_replaced (call self c) cs'
  end.

(** The position of [sym] is what the trades of [l] add up to, and [l]
    lists the EXECUTED trades on [sym]. *)
Definition follows (self : TradeManager) (sym : string) (l : list Trade)
  : Prop :=
  Permutation l (executed_trades (trades self) sym) /\
  match positions self !! sym with
  | Some pos => pos_quantity pos = accumulated l
  | None => l = []
  end.

(** The signed sum of the specification, as [sum(...)] over the trade set
    computes it: from [0], in dict order. *)
Definition signed_sum (l : list Trade) : float :=
  foldl (fun s t => s + signed_quantity t) 0 l.

(** The invariant in the words of the specification. *)
Definition positions_match_executed (self : TradeManager) : Prop :=
  forall sym,
    match positions self !! sym with
    | Some pos =>
        (pos_quantity pos =? signed_sum (executed_trades (trades self) sym))
        = true
    | None => executed_trades (trades self) sym = []
    end.

(** Buy 10 FOO and settle, then place a BUY of FOO at the same reading of
    the clock. *)
Definition buy_settle_buy_same_clock : list Call :=
  [AddFunds 100;
   PlaceTrade "FOO" BUY 10 5 "1700000000.25" 1700000000250000%Z;
   ExecuteTrade "FOO_buy_1700000000.25" None;
   PlaceTrade "FOO" BUY 1 5 "1700000000.25" 1700000000250000%Z].

(** Three free trades under three ids: BUY 1e17, SELL 1e17, BUY 1, settled
    in the order BUY 1e17, BUY 1, SELL 1e17.  [1e17 + 1.0] is [1e17]. *)
Definition unit_absorbed : list Call :=
  [PlaceTrade "FOO" BUY 1e17 0 "1700000000.25" 1700000000250000%Z;
   PlaceTrade "FOO" SELL 1e17 0 "1700000000.5" 1700000000500000%Z;
   PlaceTrade "FOO" BUY 1 0 "1700000000.75" 1700000000750000%Z;
   ExecuteTrade "FOO_buy_1700000000.25" None;
   ExecuteTrade "FOO_buy_1700000000.75" None;
   ExecuteTrade "FOO_sell_1700000000.5" None].

(** ** Calls that settle nothing *)

Definition no_settlement (c : Call) : Prop :=
  match c with ExecuteTrade _ _ => False | _ => True end.

(** The amounts [add_funds] accepts among the calls of [cs], in order. *)
Definition deposits (cs : list Call) : list float :=
  flat_map (fun c => match c with
                     | AddFunds amount => if 0 <? amount then [amount] else []
                     | _ => []
                     end) cs.

(** [b += a] for every [a] of [l], in order. *)
Definition paid_in (b : float) (l : list float) : float :=
  foldl (fun b a => b + a) b l.

End Ieee.

(** * The feed listener: [AppManager.start_websocket_listener] in [main.py]

    [await self.pump_portal_client.listen_for_trades(
       self.trade_manager.process_realtime_trade)] inside
    [try ... except Exception as e: logger.error(...)].  Python evaluates
    the callee [self.pump_portal_client.listen_for_trades] first, then the
    argument; looking up a name that neither the instance nor its class
    has raises [AttributeError], which the [except] clause catches. *)









(** * Calls to the language model: [src/modules/ai_client.py]

    [AIClient._call_deepseek] asks the API up to [retries] times.  What one
    attempt gives is decided outside the program: the body of the [try]
    either returns the stripped content of the answer or raises.  The
    attempts are an input, indexed by their number; the calls made and the
    pauses taken are returned as a trace next to the result. *)

Inductive Attempt :=
| Answered (content : string)
| Raised.

Inductive Effect :=
| Called (attempt : nat)            (* chat.completions.create(...) *)
| Slept (seconds : Z).              (* time.sleep(seconds) *)

(** The [for attempt in range(retries)] loop from [attempt] on, with
    [remaining] turns to go, and the [return ""] after it. *)
Fixpoint attempts_from (api : nat -> Attempt) (retries : Z)
    (attempt remaining : nat) : string * list Effect :=
  match remaining with
  | O => ("", [])
  | S rest =>
      match api attempt with
      | Answered content => (content, [Called attempt])
      | Raised =>
          if (Z.of_nat attempt =? retries - 1)%Z then ("", [Called attempt])
          else
            let '(result, trace) :=
              attempts_from api retries (S attempt) rest in
            (result, Called attempt :: Slept (2 ^ Z.of_nat attempt) :: trace)
      end
  end.

(** [_call_deepseek]; [range(retries)] is empty for [retries <= 0]. *)
Definition _call_deepseek (api : nat -> Attempt) (retries : Z)
  : string * list Effect :=
  attempts_from api retries 0 (Z.to_nat retries).

(** The calls of a trace, and the seconds it sleeps. *)
Definition calls_made (trace : list Effect) : nat :=
  length (List.filter (fun e => match e with Called _ => true | _ => false end)
            trace).

Fixpoint seconds_slept (trace : list Effect) : Z :=
  match trace with
  | [] => 0
  | Slept s :: trace' => s + seconds_slept trace'
  | Called _ :: trace' => seconds_slept trace'
  end%Z.

(** Attempts [from], [from + 1], ..., each failed one followed by a sleep of
    two to the power of its number, up to a last attempt that is followed
    by none: [n] sleeps and [n + 1] calls. *)
Fixpoint backoff_trace (from n : nat) : list Effect :=
  match n with
  | O => [Called from]
  | S n' => Called from :: Slept (2 ^ Z.of_nat from) :: backoff_trace (S from) n'
  end.

(** An API that fails twice and answers at the third attempt. *)
Definition third_time_lucky (attempt : nat) : Attempt :=
  match attempt with
  | 2%nat => Answered "{}"
  | _ => Raised
  end.

(** * Answers of the language model

    [AIClient._parse_json_response] removes a Markdown code fence around
    the answer and hands the rest to [json.loads], inside
    [try ... except json.JSONDecodeError].  The parser and [str.strip] are
    library code and stay parameters.  [json.loads] returns the parsed
    value, raises [JSONDecodeError], or raises something else (a
    [RecursionError] on deep nesting, a plain [ValueError] on an integer
    literal beyond the digit limit), which the [except] clause does not
    catch.  The fences are ASCII, so the slices [text[7:-3]] and
    [text[3:-3]] cut the same characters whether positions count characters
    or bytes. *)

(** What [json.loads] does with a text; [E] is the type of the exceptions
    that are not [JSONDecodeError]. *)
Inductive Loaded (J E : Type) :=
| Parsed (value : J)
| JSONDecodeError
| OtherException (e : E).

Arguments Parsed {J E} value.
Arguments JSONDecodeError {J E}.
Arguments OtherException {J E} e.

(** How a call ends: it returns a value or an exception leaves it. *)
Inductive Outcome (J E : Type) :=
| Returns (value : J)
| Raises (e : E).

Arguments Returns {J E} value.
Arguments Raises {J E} e.

Definition startswith (prefix s : string) : bool := String.prefix prefix s.

Definition endswith (suffix s : string) : bool :=
  (String.length suffix <=? String.length s)%nat
  && String.eqb
       (String.substring (String.length s - String.length suffix)
          (String.length suffix) s)
       suffix.

(** [s[start:-from_end]] with [from_end > 0]: empty when the two ends meet
    or cross. *)
Definition slice (start from_end : nat) (s : string) : string :=
  String.substring start (String.length s - from_end - start) s.

Section ParseJson.

Context {J E : Type}.
Variable loads : string -> Loaded J E.
Variable strip : string -> string.

(** The text [_parse_json_response] gives to the parser. *)
Definition unfenced (response_text : string) : string :=
  if startswith "```json" response_text && endswith "```" response_text
  then strip (slice 7 3 response_text)
  else if startswith "```" response_text && endswith "```" response_text
  then strip (slice 3 3 response_text)
  else response_text.

(** [try: return <loaded> except json.JSONDecodeError: return fallback] *)
Definition except_JSONDecodeError (loaded : Loaded J E) (fallback : J)
  : Outcome J E :=
  match loaded with
  | Parsed parsed => Returns parsed
  | JSONDecodeError => Returns fallback
  | OtherException e => Raises e
  end.

Definition _parse_json_response (response_text : string) (fallback : J)
  : Outcome J E :=
  except_JSONDecodeError (loads (unfenced response_text)) fallback.

End ParseJson.

(** * Validation of launch data: [src/modules/launch_manager.py], [main.py]

    The dicts checked hold values of any type; all the checks ask of a
    value is whether it is truthy.  The type of the values and their truth
    value are parameters.  A validator that raises [ValueError(message)]
    returns [Some message], one that returns normally [None]. *)

Section Validation.

Context {V : Type}.
Variable truthy : V -> bool.

(** [not data.get(field)] *)
Definition missing (data : gmap string V) (field : string) : bool :=
  match data !! field with
  | Some v => negb (truthy v)
  | None => true
  end.

(** The loop [for field in required_fields: if not data.get(field): ...]:
    the first required field that is missing, if any. *)
Fixpoint first_missing (required_fields : list string) (data : gmap string V)
  : option string :=
  match required_fields with
  | [] => None
  | field :: rest =>
      if missing data field then Some field else first_missing rest data
  end.

(** [LaunchManager._validate_coin_data] *)
Definition _validate_coin_data (coin_data : gmap string V) : option string :=
  match first_missing
          ["name"; "symbol"; "description"; "image_url";
           "creator_wallet_address"] coin_data with
  | Some field => Some ("Missing required field: " ++ field)
  | None => None
  end.

(** [LaunchManager._validate_social_content] *)
Definition _validate_social_content (social_content : gmap string V)
  : option string :=
  match first_missing ["twitter_text"; "telegram_text"; "discord_text"]
          social_content with
  | Some field => Some ("Missing required social content field: " ++ field)
  | None => None
  end.

End Validation.

(** [validate_launch_form] of [main.py].  The form maps names to strings;
    a string is truthy when it is not empty.  [float], [str.strip] and
    [str.upper] are parameters: [float_of] gives [None] where [float]
    raises [ValueError], and [nonpositive] is the test [sol_amount <= 0]. *)

Inductive LaunchForm (F : Type) :=
| Invalid (error : string)
| Valid (name symbol description image_url : string) (initial_sol_amount : F).

Arguments Invalid {F} error.
Arguments Valid {F} name symbol description image_url initial_sol_amount.

Definition nonempty (s : string) : bool := negb (String.eqb s "").

Section LaunchFormValidation.

Context {F : Type}.
Variable float_of : string -> option F.
Variable nonpositive : F -> bool.
Variable strip : string -> string.
Variable upper : string -> string.

Definition validate_launch_form (form_data : gmap string string)
  : LaunchForm F :=
  match first_missing nonempty
          ["name"; "symbol"; "description"; "initial_sol_amount"]
          form_data with
  | Some field => Invalid (field ++ " is required")
  | None =>
      match float_of (default "" (form_data !! "initial_sol_amount")) with
      | None => Invalid "Invalid SOL amount"
      | Some sol_amount =>
          if nonpositive sol_amount
          then Invalid "SOL amount must be positive"
          else
            Valid (strip (default "" (form_data !! "name")))
                  (upper (strip (default "" (form_data !! "symbol"))))
                  (strip (default "" (form_data !! "description")))
                  (strip (default "" (form_data !! "image_url")))
                  sol_amount
      end
  end.

End LaunchFormValidation.

(** * Webhooks: [src/modules/social_media_manager.py]

    [requests.post] and the JSON payloads are outside the program: posting
    is a parameter that tells whether the request went through ([False]
    where [requests] raises [RequestException]), and the payload of a
    pre-launch tweet is built by a parameter from the arguments of the
    call.  [format_day] is the text the f-string prints for
    [day_identifier].  The requests made are returned next to the
    result. *)

Record NeightNSettings := mkNeightNSettings {
  N8N_TWITTER_WEBHOOK_URL : string;
  N8N_TELEGRAM_WEBHOOK_URL : string;
  N8N_DISCORD_WEBHOOK_URL : string;
  N8N_TWITTER_PRE_LAUNCH_DAY7_WEBHOOK_URL : string;
  N8N_TWITTER_PRE_LAUNCH_DAY1_WEBHOOK_URL : string;
  N8N_TELEGRAM_PRE_LAUNCH_DAY3_WEBHOOK_URL : string
}.

(** [SocialMediaManager.__init__]: the dict [n8n_webhook_urls]. *)
Definition n8n_webhook_urls (settings : NeightNSettings) : gmap string string :=
  <["twitter_post" := N8N_TWITTER_WEBHOOK_URL settings]>
  (<["telegram_alert" := N8N_TELEGRAM_WEBHOOK_URL settings]>
  (<["discord_update" := N8N_DISCORD_WEBHOOK_URL settings]>
  (<["twitter_pre_launch_day7" :=
       N8N_TWITTER_PRE_LAUNCH_DAY7_WEBHOOK_URL settings]>
  (<["twitter_pre_launch_day1" :=
       N8N_TWITTER_PRE_LAUNCH_DAY1_WEBHOOK_URL settings]>
  (<["telegram_pre_launch_day3" :=
       N8N_TELEGRAM_PRE_LAUNCH_DAY3_WEBHOOK_URL settings]> ∅))))).

Section Webhooks.

Context {P D : Type}.
Variable post : string -> P -> bool.
Variable pre_launch_payload : string -> option string -> D -> P.
Variable format_day : D -> string.

(** [_send_webhook] *)
Definition _send_webhook (settings : NeightNSettings) (url_key : string)
    (payload : P) : bool * list (string * P) :=
  match n8n_webhook_urls settings !! url_key with
  | None => (false, [])
  | Some webhook_url =>
      if String.eqb webhook_url "" then (false, [])
      else (post webhook_url payload, [(webhook_url, payload)])
  end.

(** [post_pre_launch_tweet] *)
Definition post_pre_launch_tweet (settings : NeightNSettings)
    (day_identifier : D) (text : string) (image_url : option string)
  : bool * list (string * P) :=
  let url_key := "twitter_pre_launch_day" ++ format_day day_identifier in
  let payload := pre_launch_payload text image_url day_identifier in
  _send_webhook settings url_key payload.

End Webhooks.

(** * The ledger, floats read as exact rationals *)

(** The scenario of the specification: a PENDING trade cancelled twice. *)
Example scenario_cancel_twice :
  let '(first, m1) := cancel_trade funded_pending_buy "T" in
  let '(second, m2) := cancel_trade m1 "T" in
  first = true /\ second = false /\
  status_of m1 "T" = Some CANCELLED /\ m2 = m1.
Proof. repeat split; reflexivity. Qed.

(** ** Basic facts *)

Lemma Qlt_bool_iff (x y : Q) : Qlt_bool x y = true <-> x < y.
Proof.
  unfold Qlt_bool. rewrite negb_true_iff.
  split.
  - intros H. apply Qnot_le_lt. intros Hle.
    apply Qle_bool_iff in Hle. congruence.
  - intros H. destruct (Qle_bool y x) eqn:E; [|reflexivity].
    apply Qle_bool_iff in E. exfalso. apply (Qlt_not_le _ _ H E).
Qed.

Lemma Qlt_bool_false_iff (x y : Q) : Qlt_bool x y = false <-> y <= x.
Proof.
  unfold Qlt_bool. rewrite negb_false_iff. apply Qle_bool_iff.
Qed.

Lemma Qle_bool_false_iff (x y : Q) : Qle_bool x y = false <-> y < x.
Proof.
  rewrite <- Qlt_bool_iff. unfold Qlt_bool.
  destruct (Qle_bool x y); simpl; split; congruence.
Qed.

Lemma Qeq_bool_false_iff (x y : Q) : Qeq_bool x y = false <-> ~ x == y.
Proof.
  rewrite <- Qeq_bool_iff. destruct (Qeq_bool x y); split; congruence.
Qed.

Lemma TradeStatus_eqb_eq (a b : TradeStatus) :
  TradeStatus_eqb a b = true <-> a = b.
Proof. destruct a, b; simpl; split; congruence. Qed.

Lemma TradeStatus_eqb_neq (a b : TradeStatus) :
  TradeStatus_eqb a b = false <-> a <> b.
Proof. destruct a, b; simpl; split; congruence. Qed.

Module DictFacts.

Lemma get_set_eq {V : Type} (d : list (string * V)) (k : string) (v : V) :
  Dict.get (Dict.set d k v) k = Some v.
Proof.
  induction d as [|[k' v'] d IH]; simpl.
  - now rewrite String.eqb_refl.
  - destruct (String.eqb k' k) eqn:E; simpl; rewrite E; auto.
Qed.

Lemma get_set_ne {V : Type} (d : list (string * V)) (k k' : string) (v : V) :
  k <> k' -> Dict.get (Dict.set d k v) k' = Dict.get d k'.
Proof.
  intros Hne. induction d as [|[k0 v0] d IH]; simpl.
  - destruct (String.eqb_spec k k'); congruence.
  - destruct (String.eqb_spec k0 k) as [->|Hk]; simpl.
    + destruct (String.eqb_spec k k'); congruence.
    + now rewrite IH.
Qed.



End DictFacts.

(** ** Settlement: refusal and success *)

Lemma execute_trade_refused (self : TradeManager) (trade_id : string)
    (execution_price : option Q) :
  settle_refused self trade_id execution_price ->
  execute_trade self trade_id execution_price = (false, self).
Proof.
  unfold settle_refused, execute_trade.
  destruct (Dict.get (trades self) trade_id) as [trade|]; [|reflexivity].
  intros [Hst | [[Hty Hlt] | [Hty Hpos]]].
  - apply TradeStatus_eqb_neq in Hst. now rewrite Hst.
  - destruct (TradeStatus_eqb (status trade) PENDING); [simpl|reflexivity].
    rewrite Hty. apply Qlt_bool_iff in Hlt. now rewrite Hlt.
  - destruct (TradeStatus_eqb (status trade) PENDING); [simpl|reflexivity].
    rewrite Hty. unfold _has_sufficient_position.
    destruct (positions self !! symbol trade) as [pos|]; [|reflexivity].
    apply Qle_bool_false_iff in Hpos. now rewrite Hpos.
Qed.

Lemma execute_trade_accepted (self : TradeManager) (trade_id : string)
    (execution_price : option Q) :
  ~ settle_refused self trade_id execution_price ->
  exists trade,
    Dict.get (trades self) trade_id = Some trade /\
    status trade = PENDING /\
    let exec_price := py_or execution_price (price trade) in
    execute_trade self trade_id execution_price =
    (true,
     {| trades := Dict.set (trades self) trade_id
                    (mark_executed trade exec_price);
        positions := _update_position (positions self) (symbol trade)
                       (signed_quantity trade) exec_price;
        balance := match trade_type trade with
                   | BUY => balance self - exec_price * quantity trade
                   | SELL => balance self + exec_price * quantity trade
                   end |}).
Proof.
  unfold settle_refused, execute_trade, signed_quantity.
  destruct (Dict.get (trades self) trade_id) as [trade|]; [|tauto].
  intros Hno. exists trade. split; [reflexivity|].
  destruct (TradeStatus_eqb (status trade) PENDING) eqn:Est.
  2:{ apply TradeStatus_eqb_neq in Est. tauto. }
  apply TradeStatus_eqb_eq in Est. split; [exact Est|]. simpl.
  destruct (trade_type trade) eqn:Ety.
  - destruct (Qlt_bool _ _) eqn:Elt; [|reflexivity].
    apply Qlt_bool_iff in Elt. tauto.
  - unfold _has_sufficient_position in *.
    destruct (positions self !! symbol trade) as [pos|]; [|tauto].
    destruct (Qle_bool _ _) eqn:Ele; [reflexivity|].
    apply Qle_bool_false_iff in Ele. tauto.
Qed.

Lemma settle_refused_dec (self : TradeManager) (trade_id : string)
    (execution_price : option Q) :
  settle_refused self trade_id execution_price \/
  ~ settle_refused self trade_id execution_price.
Proof.
  destruct (execute_trade self trade_id execution_price) as [b self'] eqn:E.
  destruct b.
  - right. intros H. apply execute_trade_refused in H. congruence.
  - left. unfold settle_refused, execute_trade in *.
    destruct (Dict.get (trades self) trade_id) as [trade|]; [|exact I].
    destruct (TradeStatus_eqb (status trade) PENDING) eqn:Est.
    2:{ left. now apply TradeStatus_eqb_neq. }
    simpl in E. right. destruct (trade_type trade).
    + left. split; [reflexivity|]. apply Qlt_bool_iff.
      destruct (Qlt_bool _ _); [reflexivity|discriminate].
    + right. split; [reflexivity|]. unfold _has_sufficient_position in E.
      destruct (positions self !! symbol trade) as [pos|]; [|exact I].
      apply Qle_bool_false_iff.
      destruct (Qle_bool _ _); [discriminate|reflexivity].
Qed.

Lemma execute_trade_true (self : TradeManager) (trade_id : string)
    (execution_price : option Q) :
  fst (execute_trade self trade_id execution_price) = true ->
  exists trade,
    Dict.get (trades self) trade_id = Some trade /\
    status trade = PENDING /\
    snd (execute_trade self trade_id execution_price) =
    {| trades := Dict.set (trades self) trade_id
                   (mark_executed trade (py_or execution_price (price trade)));
       positions := _update_position (positions self) (symbol trade)
                      (signed_quantity trade)
                      (py_or execution_price (price trade));
       balance := match trade_type trade with
                  | BUY => balance self
                           - py_or execution_price (price trade) * quantity trade
                  | SELL => balance self
                            + py_or execution_price (price trade) * quantity trade
                  end |}.
Proof.
  intros Hok.
  destruct (settle_refused_dec self trade_id execution_price) as [Hr | Hn].
  - rewrite (execute_trade_refused _ _ _ Hr) in Hok. discriminate.
  - destruct (execute_trade_accepted _ _ _ Hn) as (trade & Hget & Hst & E).
    exists trade. simpl in E. rewrite E. auto.
Qed.

Lemma execute_trade_false (self : TradeManager) (trade_id : string)
    (execution_price : option Q) :
  fst (execute_trade self trade_id execution_price) = false ->
  execute_trade self trade_id execution_price = (false, self).
Proof.
  intros Hno.
  destruct (settle_refused_dec self trade_id execution_price) as [Hr | Hn].
  - now apply execute_trade_refused.
  - destruct (execute_trade_accepted _ _ _ Hn) as (trade & _ & _ & E).
    simpl in E. rewrite E in Hno. discriminate.
Qed.

(** ** What [_update_position] leaves *)

Lemma _update_position_lookup (ps : gmap string Position) (sym : string)
    (delta P : Q) :
  exists pos',
    _update_position ps sym delta P !! sym = Some pos' /\
    (pos_quantity (prior_position ps sym) == 0 ->
     pos_quantity pos' = delta /\ avg_price pos' = P) /\
    (~ pos_quantity (prior_position ps sym) == 0 ->
     pos_quantity pos' = pos_quantity (prior_position ps sym) + delta /\
     (~ pos_quantity pos' == 0 ->
      avg_price pos' =
        (pos_quantity (prior_position ps sym) * avg_price (prior_position ps sym)
         + delta * P)
        / (pos_quantity (prior_position ps sym) + delta)) /\
     (pos_quantity pos' == 0 -> avg_price pos' = 0)) /\
    market_value pos' = pos_quantity pos' * P.
Proof.
  unfold _update_position, prior_position.
  set (pos := default (mkPosition sym 0 0 0) (ps !! sym)).
  rewrite lookup_insert_eq. eexists. split; [reflexivity|].
  destruct (Qeq_bool (pos_quantity pos) 0) eqn:E0; simpl.
  - apply Qeq_bool_iff in E0. split; [auto|]. split; [tauto|reflexivity].
  - apply Qeq_bool_false_iff in E0. split; [tauto|].
    split; [|reflexivity]. intros _. split; [reflexivity|].
    destruct (Qeq_bool (pos_quantity pos + delta) 0) eqn:E1; simpl.
    + apply Qeq_bool_iff in E1. split; [tauto|reflexivity].
    + apply Qeq_bool_false_iff in E1. split; [reflexivity|tauto].
Qed.

(** ** Validation of inputs *)

Lemma add_funds_nonpositive (self : TradeManager) (amount : Q) :
  amount <= 0 -> add_funds self amount = self.
Proof.
  intros H. unfold add_funds. apply Qlt_bool_false_iff in H. now rewrite H.
Qed.

(** C7, as amended.  [add_funds] ignores a non-positive amount: the manager
    is unchanged.  [place_trade] makes no check of the quantity: whatever
    the quantity, it leaves balance and positions as they were and records
    a PENDING trade of that quantity under the id it returns. *)
Theorem add_funds_checks_amount_place_trade_checks_nothing :
  (forall (self : TradeManager) (amount : Q),
     amount <= 0 -> add_funds self amount = self) /\
  (forall (self : TradeManager) (sym : string) (side : TradeType)
          (qty prc : Q) (stamp : string) (now : datetime),
     let trade_id := fst (place_trade self sym side qty prc stamp now) in
     let self' := snd (place_trade self sym side qty prc stamp now) in
     balance self' = balance self /\
     positions self' = positions self /\
     Dict.get (trades self') trade_id =
       Some (mkTrade trade_id sym side qty prc now PENDING)).
Proof.
  split; [exact add_funds_nonpositive|].
  intros. simpl. split; [reflexivity|]. split; [reflexivity|].
  apply DictFacts.get_set_eq.
Qed.

(** C7, as stated, fails for [place_trade]: a quantity of [-1] is recorded
    like any other, under a freshly returned id. *)
Lemma place_trade_accepts_negative_quantity :
  let '(trade_id, self') :=
    place_trade init "FOO" BUY (-1) 5 "1700000000.5" 1700000000500000%Z in
  -1 <= 0 /\
  trade_id = "FOO_buy_1700000000.5" /\
  trades self' <> trades init /\
  (quantity <$> Dict.get (trades self') trade_id) = Some (-1).
Proof.
  simpl. split; [discriminate|]. split; [reflexivity|].
  split; [discriminate|reflexivity].
Qed.

(** ** Trade ids *)





(** ** The life cycle of a trade *)

Lemma cancel_trade_pending (self : TradeManager) (trade_id : string)
    (trade : Trade) :
  Dict.get (trades self) trade_id = Some trade ->
  status trade = PENDING ->
  cancel_trade self trade_id =
  (true, {| trades := Dict.set (trades self) trade_id (mark_cancelled trade);
            positions := positions self; balance := balance self |}).
Proof.
  intros Hget Hst. unfold cancel_trade. rewrite Hget, Hst. reflexivity.
Qed.

Lemma cancel_trade_not_pending (self : TradeManager) (trade_id : string) :
  status_of self trade_id <> Some PENDING ->
  cancel_trade self trade_id = (false, self).
Proof.
  unfold status_of, cancel_trade.
  destruct (Dict.get (trades self) trade_id) as [trade|]; [|reflexivity].
  simpl. intros H.
  destruct (TradeStatus_eqb (status trade) PENDING) eqn:E; [|reflexivity].
  apply TradeStatus_eqb_eq in E. congruence.
Qed.

(** ** Settlements running side by side *)

Lemma set_set {V : Type} (d : list (string * V)) (k : string) (a b : V) :
  Dict.set (Dict.set d k a) k b = Dict.set d k b.
Proof.
  induction d as [|[k0 v0] d IH]; simpl.
  - now rewrite String.eqb_refl.
  - destruct (String.eqb k0 k) eqn:E; simpl; rewrite E; [reflexivity|].
    now rewrite IH.
Qed.

Ltac run_statements Hget :=
  repeat (progress
    (cbn [steps step fr_at fr_trade_id fr_execution_price fst snd
          with_balance with_positions with_trade trades positions balance];
     try rewrite Hget; try rewrite DictFacts.get_set_eq)).

(** Run alone from entry to return, the statements of a frame do what
    [execute_trade] does. *)
Lemma steps_execute_trade (self : TradeManager) (c : string * option Q) :
  steps call_length self (enter c) =
  (snd (execute_trade self c.1 c.2),
   returned c (fst (execute_trade self c.1 c.2))).
Proof.
  destruct c as [trade_id px].
  unfold execute_trade, returned, enter, call_length. cbn [fst snd].
  destruct (Dict.get (trades self) trade_id) as [trade|] eqn:Hget.
  2:{ cbn. now rewrite Hget. }
  run_statements Hget.
  destruct (TradeStatus_eqb (status trade) PENDING); cbn [negb].
  2:{ run_statements Hget. reflexivity. }
  run_statements Hget.
  destruct (trade_type trade).
  - destruct (Qlt_bool _ _); run_statements Hget; [reflexivity|].
    unfold with_trade, with_positions, with_balance. cbn [trades positions balance].
    now rewrite set_set.
  - destruct (_has_sufficient_position _ _ _); cbn [negb];
      run_statements Hget; [|reflexivity].
    unfold with_trade, with_positions, with_balance. cbn [trades positions balance].
    now rewrite set_set.
Qed.

Lemma schedule_repeat (n : nat) (self : TradeManager) (frames : list Frame)
    (i : nat) (f : Frame) :
  frames !! i = Some f ->
  run_schedule (self, frames) (repeat i n) =
  ((steps n self f).1, <[i := (steps n self f).2]> frames).
Proof.
  revert self frames f.
  induction n as [|n IH]; intros self frames f Hf; cbn [repeat steps].
  - unfold run_schedule. cbn. now rewrite list_insert_id.
  - unfold run_schedule in *. cbn [foldl].
    unfold schedule_step at 2. cbn [fst snd]. rewrite Hf.
    destruct (step self f) as [self1 f1].
    rewrite (IH self1 (<[i := f1]> frames) f1).
    + now rewrite list_insert_insert_eq.
    + apply list_lookup_insert_eq. now apply lookup_lt_Some in Hf.
Qed.

Lemma serial_from_S (i n : nat) :
  serial_from i (S n) = (repeat i call_length ++ serial_from (S i) n)%list.
Proof. reflexivity. Qed.

(** Under the serial schedule the frames return, one after the other, what
    [execute_trade] returns when called in that order. *)
Lemma serial_run (cs : list (string * option Q)) (self : TradeManager)
    (finished : list Frame) :
  run_schedule (self, (finished ++ (enter <$> cs))%list)
    (serial_from (length finished) (length cs)) =
  ((settle_each self cs).2,
   (finished ++ zip_with returned cs (settle_each self cs).1)%list).
Proof.
  revert self finished.
  induction cs as [|c cs IH]; intros self finished; [reflexivity|].
  cbn [length fmap list_fmap settle_each]. rewrite serial_from_S.
  unfold run_schedule in *. rewrite foldl_app.
  pose proof (schedule_repeat call_length self
                (finished ++ enter c :: (enter <$> cs))%list
                (length finished) (enter c)) as Hone.
  unfold run_schedule in Hone. rewrite Hone by now apply list_lookup_middle.
  rewrite steps_execute_trade. cbn [fst snd].
  destruct (execute_trade self c.1 c.2) as [b self1]. cbn [fst snd].
  replace (length finished) with (length finished + 0)%nat at 1 by lia.
  rewrite insert_app_r. cbn [insert list_insert].
  rewrite cons_middle, app_assoc.
  replace (S (length finished)) with (length (finished ++ [returned c b]))
    by (rewrite length_app; cbn; lia).
  rewrite IH.
  destruct (settle_each self1 cs) as [bs self2]. cbn [fst snd zip_with].
  now rewrite <- app_assoc.
Qed.
Lemma settle_each_all_refused (self : TradeManager) (sym : string) (q : Q)
    (pos : Position) (cs : list (string * option Q)) :
  0 < q ->
  positions self !! sym = Some pos -> pos_quantity pos == 0 ->
  sells_of self sym q cs ->
  settle_each self cs = (repeat false (length cs), self).
Proof.
  intros Hq Hpos Hzero Hcs.
  induction Hcs as [|c cs (t & Hget & Hst & Hty & Hsym & Hqty) _ IH];
    [reflexivity|].
  cbn [settle_each length repeat].
  rewrite (execute_trade_refused self c.1 c.2).
  - now rewrite IH.
  - unfold settle_refused. rewrite Hget. right. right.
    split; [exact Hty|]. rewrite Hsym, Hpos. lra.
Qed.

Lemma sells_of_after_settle (self : TradeManager) (sym : string) (q : Q)
    (c : string * option Q) (cs : list (string * option Q)) :
  c.1 ∉ cs.*1 ->
  sells_of self sym q cs ->
  sells_of (snd (execute_trade self c.1 c.2)) sym q cs.
Proof.
  intros Hnotin Hcs.
  destruct (fst (execute_trade self c.1 c.2)) eqn:E.
  2:{ now rewrite (execute_trade_false _ _ _ E). }
  destruct (execute_trade_true _ _ _ E) as (trade & _ & _ & ->).
  unfold sells_of in *. rewrite Forall_forall in *.
  intros c' Hin. destruct (Hcs c' Hin) as (t & Hget & Hrest).
  exists t. split; [|exact Hrest]. cbn [trades].
  rewrite DictFacts.get_set_ne; [exact Hget|].
  intros Heq. apply Hnotin. rewrite Heq.
  apply list_elem_of_fmap. exists c'. split; [reflexivity|exact Hin].
Qed.

Lemma first_sell_wins (self : TradeManager) (sym : string) (q : Q)
    (pos : Position) (c : string * option Q) (cs : list (string * option Q)) :
  0 < q ->
  positions self !! sym = Some pos -> pos_quantity pos == q ->
  NoDup ((c :: cs).*1) ->
  sells_of self sym q (c :: cs) ->
  settle_each self (c :: cs) =
    (true :: repeat false (length cs), snd (execute_trade self c.1 c.2)) /\
  exists pos',
    positions (snd (execute_trade self c.1 c.2)) !! sym = Some pos' /\
    pos_quantity pos' == 0.
Proof.
  intros Hq Hpos Hheld Hids Hsells.
  cbn [fmap list_fmap] in Hids. apply NoDup_cons in Hids as [Hnotin _].
  pose proof (sells_of_after_settle self sym q c cs Hnotin) as Hafter.
  unfold sells_of in Hsells. apply Forall_cons in Hsells as [Hc Hcs].
  specialize (Hafter Hcs).
  destruct Hc as (t & Hget & Hst & Hty & Hsym & Hqty).
  assert (Hrun : ~ settle_refused self c.1 c.2).
  { unfold settle_refused. rewrite Hget.
    intros [H | [[H _] | [_ H]]]; [congruence | congruence |].
    rewrite Hsym, Hpos in H. lra. }
  destruct (execute_trade_accepted _ _ _ Hrun) as (t' & Hget' & _ & E).
  rewrite Hget in Hget'. injection Hget' as <-. cbv zeta in E.
  assert (Hpos' : exists pos',
            positions (snd (execute_trade self c.1 c.2)) !! sym = Some pos' /\
            pos_quantity pos' == 0).
  { rewrite E. cbn [snd positions]. rewrite Hsym.
    destruct (_update_position_lookup (positions self) sym
                (signed_quantity t) (py_or c.2 (price t)))
      as (pos' & Hlook & _ & Hnonzero & _).
    exists pos'. split; [exact Hlook|].
    unfold prior_position in Hnonzero. rewrite Hpos in Hnonzero.
    simpl in Hnonzero.
    assert (Hnz : ~ pos_quantity pos == 0) by lra.
    destruct (Hnonzero Hnz) as [-> _].
    unfold signed_quantity. rewrite Hty. lra. }
  split; [|exact Hpos'].
  destruct Hpos' as (pos' & Hlook & Hzero).
  cbn [settle_each].
  destruct (execute_trade self c.1 c.2) as [b self1] eqn:E1.
  cbn [snd] in *.
  rewrite (settle_each_all_refused self1 sym q pos' cs Hq Hlook Hzero Hafter).
  congruence.
Qed.

(** C9, as amended.  The manager holds no lock; the calls of
    [execute_trade] are serialised only if the caller runs them one after
    the other.  For N calls run that way, each from entry to return, that
    settle PENDING SELLs of [q] units against a position of exactly [q]:
    the first call returns [True], the N-1 others return [False], and the
    manager is left as the first call left it, with a position of zero. *)
Theorem serial_sells_one_success (self : TradeManager) (sym : string) (q : Q)
    (pos : Position) (c : string * option Q) (cs : list (string * option Q))
    (Hq : 0 < q)
    (Hpos : positions self !! sym = Some pos)
    (Hheld : pos_quantity pos == q)
    (Hids : NoDup ((c :: cs).*1))
    (Hsells : sells_of self sym q (c :: cs)) :
  let final :=
    run_schedule (self, enter <$> c :: cs)
      (serial_from 0 (length (c :: cs))) in
  fr_at <$> final.2 = Returned true :: repeat (Returned false) (length cs) /\
  final.1 = snd (execute_trade self c.1 c.2) /\
  exists pos', positions final.1 !! sym = Some pos' /\ pos_quantity pos' == 0.
Proof.
  intros final. subst final.
  pose proof (serial_run (c :: cs) self []) as Hrun.
  cbn [length app] in Hrun. cbn [length]. rewrite Hrun. clear Hrun.
  destruct (first_sell_wins self sym q pos c cs Hq Hpos Hheld Hids Hsells)
    as [-> Hzero].
  cbn [fst snd zip_with fmap list_fmap returned fr_at].
  split; [|split; [reflexivity|exact Hzero]].
  f_equal. clear. induction cs as [|c' cs IH]; [reflexivity|].
  cbn [length repeat zip_with fmap list_fmap returned fr_at].
  now rewrite <- IH.
Qed.

Lemma serial_sells_one_success_witness :
  fr_at <$> (run_schedule
               (two_sells_one_unit, enter <$> [("S1", None); ("S2", Some 6)])
               (serial_from 0 2)).2
  = [Returned true; Returned false].
Proof.
  apply (serial_sells_one_success two_sells_one_unit "FOO" 1
           (mkPosition "FOO" 1 5 5) ("S1", None) [("S2", Some 6)]).
  - reflexivity.
  - reflexivity.
  - reflexivity.
  - cbn. apply NoDup_cons. split; [|apply NoDup_singleton].
    intros H. apply list_elem_of_singleton in H. discriminate.
  - repeat constructor; cbn; eexists; repeat split; reflexivity.
Defined.

(** C9, as stated, fails: nothing serialises the calls.  With one unit held
    and two SELLs of one unit, a schedule that lets both frames pass the
    guard of line 90 before either reaches line 93 makes both calls return
    [True] and leaves a position of [-1]. *)
Lemma unlocked_sells_both_succeed :
  let '(self', frames) :=
    run_schedule (two_sells_one_unit, enter <$> [("S1", None); ("S2", None)])
      both_pass_the_guard in
  fr_at <$> frames = [Returned true; Returned true] /\
  (pos_quantity <$> positions self' !! "FOO") = Some (-1) /\
  balance self' == 10.
Proof. vm_compute. repeat split; reflexivity. Qed.


(** ** The trade history *)

Lemma insert_by_timestamp_perm (t : Trade) (l : list Trade) :
  Permutation (insert_by_timestamp t l) (t :: l).
Proof.
  induction l as [|u l IH]; cbn [insert_by_timestamp]; [reflexivity|].
  destruct (timestamp u <=? timestamp t)%Z; [reflexivity|].
  rewrite IH. apply perm_swap.
Qed.

Lemma insert_by_timestamp_sorted (t : Trade) (l : list Trade) :
  StronglySorted newer_first l ->
  StronglySorted newer_first (insert_by_timestamp t l).
Proof.
  induction 1 as [|u l Hl IH Hu]; cbn [insert_by_timestamp].
  - repeat constructor.
  - destruct (timestamp u <=? timestamp t)%Z eqn:E.
    + apply Z.leb_le in E.
      constructor; [now constructor|].
      constructor; [exact E|].
      eapply Forall_impl; [exact Hu|].
      unfold newer_first. intros v Hv. lia.
    + apply Z.leb_gt in E.
      constructor; [exact IH|].
      rewrite (insert_by_timestamp_perm t l).
      constructor; [unfold newer_first; lia | exact Hu].
Qed.

Lemma created_at_insert (ts : datetime) (t : Trade) (l : list Trade) :
  created_at ts (insert_by_timestamp t l) = created_at ts (t :: l).
Proof.
  unfold created_at.
  induction l as [|u l IH]; cbn [insert_by_timestamp]; [reflexivity|].
  destruct (timestamp u <=? timestamp t)%Z eqn:E; [reflexivity|].
  apply Z.leb_gt in E. cbn [List.filter] in *. rewrite IH.
  destruct (timestamp t =? ts)%Z eqn:Et; [|reflexivity].
  apply Z.eqb_eq in Et.
  destruct (timestamp u =? ts)%Z eqn:Eu; [|reflexivity].
  apply Z.eqb_eq in Eu. lia.
Qed.

(** X1.  [get_trade_history] returns every recorded trade once, none
    added and none lost, ordered by creation time with the most recent
    first. *)
Theorem get_trade_history_sorted_permutation (self : TradeManager) :
  Permutation (get_trade_history self) (Dict.values (trades self)) /\
  StronglySorted newer_first (get_trade_history self) /\
  length (get_trade_history self) = length (trades self).
Proof.
  unfold get_trade_history.
  assert (Hperm : forall l, Permutation (foldr insert_by_timestamp [] l) l).
  { induction l as [|t l IH]; cbn [foldr]; [reflexivity|].
    now rewrite insert_by_timestamp_perm, IH. }
  split; [apply Hperm|]. split.
  - induction (Dict.values (trades self)) as [|t l IH]; cbn [foldr].
    + constructor.
    + now apply insert_by_timestamp_sorted.
  - rewrite (Permutation_length (Hperm _)). unfold Dict.values.
    apply length_map.
Qed.

(** X2.  The sort of [get_trade_history] is stable: trades created at the
    same time appear in the history in the order in which they were
    recorded. *)
Theorem get_trade_history_stable (self : TradeManager) (ts : datetime) :
  created_at ts (get_trade_history self)
  = created_at ts (Dict.values (trades self)).
Proof.
  unfold get_trade_history.
  induction (Dict.values (trades self)) as [|t l IH]; cbn [foldr];
    [reflexivity|].
  rewrite created_at_insert. unfold created_at in *. cbn [List.filter].
  now rewrite IH.
Qed.

(** ** Positions that are shown and positions that are kept *)

(** [get_all_positions] shows exactly the records [get_position] returns
    whose quantity is not zero. *)
Lemma get_all_positions_lookup (self : TradeManager) (sym : string)
    (pos : Position) :
  get_all_positions self !! sym = Some pos <->
  get_position self sym = Some pos /\ ~ pos_quantity pos == 0.
Proof.
  unfold get_all_positions, get_position.
  rewrite map_lookup_filter_Some. cbn [snd].
  now rewrite Qeq_bool_false_iff.
Qed.



(** ** The value of the portfolio *)


(** ** What is recorded stays recorded *)

Lemma kept_as_refl (t : Trade) : kept_as t t.
Proof. repeat split; auto. Qed.

Lemma kept_as_trans (t1 t2 t3 : Trade) :
  kept_as t1 t2 -> kept_as t2 t3 -> kept_as t1 t3.
Proof.
  intros ((Ha & Hb & Hc & Hd & He) & H12 & H21)
         ((Ha' & Hb' & Hc' & Hd' & He') & H23 & H32).
  split; [repeat split; congruence|]. split.
  - intros Hn. pose proof (H12 Hn) as E. subst t2. exact (H23 Hn).
  - intros Hp. pose proof (H32 Hp) as E. subst t3. exact (H21 Hp).
Qed.

Lemma kept_as_step (self : TradeManager) (c : Call) (k : string) (t : Trade) :
  fresh_ids self [c] ->
  Dict.get (trades self) k = Some t ->
  exists t', Dict.get (trades (call self c)) k = Some t' /\ kept_as t t'.
Proof.
  intros [Hfresh _] Hget.
  destruct c as [a | sym side qty prc stamp now | trade_id p | trade_id];
    cbn [call].
  - exists t. split; [|apply kept_as_refl].
    unfold add_funds. now destruct (Qlt_bool 0 a).
  - exists t. split; [|apply kept_as_refl].
    cbn [place_trade snd trades].
    rewrite DictFacts.get_set_ne; [exact Hget|]. congruence.
  - destruct (fst (execute_trade self trade_id p)) eqn:E.
    2:{ rewrite (execute_trade_false _ _ _ E). exists t.
        split; [exact Hget|apply kept_as_refl]. }
    destruct (execute_trade_true _ _ _ E) as (trade & Hget' & Hst & ->).
    cbn [trades].
    destruct (String.eqb_spec trade_id k) as [->|Hne].
    + rewrite Hget in Hget'. injection Hget' as <-.
      rewrite DictFacts.get_set_eq. eexists. split; [reflexivity|].
      split; [repeat split|]. split; [congruence|discriminate].
    + rewrite DictFacts.get_set_ne by assumption.
      exists t. split; [exact Hget|apply kept_as_refl].
  - destruct (decide (status_of self trade_id = Some PENDING)) as [Hp | Hn].
    2:{ rewrite (cancel_trade_not_pending _ _ Hn). exists t.
        split; [exact Hget|apply kept_as_refl]. }
    unfold status_of in Hp.
    destruct (Dict.get (trades self) trade_id) as [trade|] eqn:Hget';
      [|discriminate].
    injection Hp as Hp. rewrite (cancel_trade_pending _ _ _ Hget' Hp).
    cbn [snd trades].
    destruct (String.eqb_spec trade_id k) as [->|Hne].
    + rewrite Hget in Hget'. injection Hget' as <-.
      rewrite DictFacts.get_set_eq. eexists. split; [reflexivity|].
      split; [repeat split|]. split; [congruence|discriminate].
    + rewrite DictFacts.get_set_ne by assumption.
      exists t. split; [exact Hget|apply kept_as_refl].
Qed.

(** X7.  No call removes or rewrites an order: along any sequence of calls
    in which every [place_trade] gets an id that is not in use, a recorded
    trade stays recorded under its id with the same symbol, side, quantity
    and creation time; while it is PENDING it is unchanged, and once it is
    EXECUTED or CANCELLED it never changes again, its price included. *)
Theorem recorded_trade_is_kept (self : TradeManager) (cs : list Call)
    (k : string) (t : Trade)
    (Hfresh : fresh_ids self cs)
    (Hget : Dict.get (trades self) k = Some t) :
  exists t', Dict.get (trades (run self cs)) k = Some t' /\ kept_as t t'.
Proof.
  revert self t Hfresh Hget.
  induction cs as [|c cs IH]; intros self t Hfresh Hget.
  - exists t. split; [exact Hget|apply kept_as_refl].
  - destruct Hfresh as [Hc Hfresh].
    destruct (kept_as_step self c k t (conj Hc I) Hget) as (t1 & Hget1 & H1).
    destruct (IH _ t1 Hfresh Hget1) as (t' & Hget' & H').
    exists t'. split; [exact Hget'|].
    now apply (kept_as_trans t t1 t').
Qed.

Lemma recorded_trade_is_kept_witness :
  exists t',
    Dict.get (trades (run funded_pending_buy settle_cancel_settle)) "T"
    = Some t' /\
    kept_as (mkTrade "T" "FOO" BUY 1 5 0%Z PENDING) t'.
Proof.
  apply (recorded_trade_is_kept funded_pending_buy settle_cancel_settle "T").
  - simpl. repeat split.
  - reflexivity.
Defined.

Lemma keys_set (ts : list (string * Trade)) (k : string) (v : Trade) :
  (Dict.set ts k v).*1 =
  match Dict.get ts k with
  | Some _ => ts.*1
  | None => (ts.*1 ++ [k])%list
  end.
Proof.
  induction ts as [|[k0 t0] ts IH]; cbn; [reflexivity|].
  destruct (String.eqb k0 k); cbn; [reflexivity|].
  rewrite IH. now destruct (Dict.get ts k).
Qed.

Lemma get_None_not_key (ts : list (string * Trade)) (k : string) :
  Dict.get ts k = None -> k ∉ ts.*1.
Proof.
  induction ts as [|[k0 t0] ts IH]; cbn.
  - intros _ H. now apply elem_of_nil in H.
  - destruct (String.eqb_spec k0 k) as [->|Hne]; [discriminate|].
    intros H Hin. apply elem_of_cons in Hin as [->|Hin];
      [congruence | exact (IH H Hin)].
Qed.

Lemma NoDup_keys_set (ts : list (string * Trade)) (k : string) (v : Trade) :
  NoDup ts.*1 -> NoDup (Dict.set ts k v).*1.
Proof.
  intros Hnd. rewrite keys_set.
  destruct (Dict.get ts k) eqn:E; [exact Hnd|].
  apply NoDup_app. split; [exact Hnd|]. split; [|apply NoDup_singleton].
  intros x Hx Hk. apply list_elem_of_singleton in Hk. subst x.
  now apply (get_None_not_key ts k E).
Qed.

Lemma In_set_key (ts : list (string * Trade)) (k k' : string) (v t : Trade) :
  In (k', t) (Dict.set ts k v) -> (k' = k /\ t = v) \/ In (k', t) ts.
Proof.
  induction ts as [|[k0 t0] ts IH]; simpl.
  - intros [[= <- <-] | []]. now left.
  - destruct (String.eqb_spec k0 k) as [->|Hne]; simpl.
    + intros [[= <- <-] | H]; auto.
    + intros [H | H]; auto. destruct (IH H); auto.
Qed.

Lemma well_keyed_init : well_keyed init.
Proof.
  split; cbn.
  - intros k t [].
  - apply NoDup_nil_2.
  - intros sym pos H. discriminate H.
Qed.

Lemma well_keyed_set (self self' : TradeManager) (k : string) (v : Trade) :
  well_keyed self ->
  trades self' = Dict.set (trades self) k v ->
  id v = k ->
  (forall sym pos, positions self' !! sym = Some pos -> pos_symbol pos = sym) ->
  well_keyed self'.
Proof.
  intros [Ht Hnd _] E Hid Hp. split; [| |exact Hp]; rewrite E.
  - intros k' t Hin. destruct (In_set_key _ _ _ _ _ Hin) as [[-> ->]|Hold];
      [exact Hid | now apply Ht].
  - now apply NoDup_keys_set.
Qed.

Lemma _update_position_keyed (ps : gmap string Position) (sym : string)
    (delta P : Q) :
  (forall s pos, ps !! s = Some pos -> pos_symbol pos = s) ->
  forall s pos, _update_position ps sym delta P !! s = Some pos ->
                pos_symbol pos = s.
Proof.
  intros Hps s pos. unfold _update_position.
  destruct (decide (sym = s)) as [<-|Hne].
  - rewrite lookup_insert_eq. intros [= <-].
    assert (Hsym : pos_symbol (default (mkPosition sym 0 0 0) (ps !! sym)) = sym).
    { destruct (ps !! sym) as [pos0|] eqn:E; cbn; [eauto|reflexivity]. }
    now destruct (Qeq_bool _ 0).
  - rewrite lookup_insert_ne by assumption. apply Hps.
Qed.

Lemma well_keyed_call (self : TradeManager) (c : Call) :
  well_keyed self -> well_keyed (call self c).
Proof.
  intros Hw.
  destruct c as [a | sym side qty prc stamp now | trade_id p | trade_id];
    cbn [call].
  - unfold add_funds. destruct (Qlt_bool 0 a); [|exact Hw].
    destruct Hw. now split.
  - eapply well_keyed_set; [exact Hw|reflexivity|reflexivity|].
    apply (keyed_positions _ Hw).
  - destruct (fst (execute_trade self trade_id p)) eqn:E.
    2:{ now rewrite (execute_trade_false _ _ _ E). }
    destruct (execute_trade_true _ _ _ E) as (trade & Hget & _ & ->).
    eapply well_keyed_set; [exact Hw|reflexivity| |].
    + cbn. apply (keyed_trades _ Hw).
      clear -Hget. induction (trades self) as [|[k0 t0] ts IH];
        cbn in *; [discriminate|].
      destruct (String.eqb_spec k0 trade_id) as [->|Hne].
      * injection Hget as ->. now left.
      * right. now apply IH.
    + cbn [positions]. apply _update_position_keyed.
      apply (keyed_positions _ Hw).
  - destruct (decide (status_of self trade_id = Some PENDING)) as [Hp | Hn].
    2:{ now rewrite (cancel_trade_not_pending _ _ Hn). }
    unfold status_of in Hp.
    destruct (Dict.get (trades self) trade_id) as [trade|] eqn:Hget;
      [|discriminate].
    injection Hp as Hp. rewrite (cancel_trade_pending _ _ _ Hget Hp).
    eapply well_keyed_set; [exact Hw|reflexivity| |].
    + cbn. apply (keyed_trades _ Hw).
      clear -Hget. induction (trades self) as [|[k0 t0] ts IH];
        cbn in *; [discriminate|].
      destruct (String.eqb_spec k0 trade_id) as [->|Hne].
      * injection Hget as ->. now left.
      * right. now apply IH.
    + apply (keyed_positions _ Hw).
Qed.

(** X8.  After any sequence of calls, every trade is stored under the id
    it carries and every position under the symbol it carries, and no id is
    stored twice: the id [place_trade] returns, the key of the dict and the
    [id] field of the trade are one and the same. *)
Theorem trades_and_positions_under_their_own_key (cs : list Call) :
  well_keyed (run init cs).
Proof.
  assert (H : forall self, well_keyed self -> well_keyed (run self cs)).
  { induction cs as [|c cs IH]; intros self Hw; [exact Hw|].
    change (run self (c :: cs)) with (run (call self c) cs).
    apply IH. now apply well_keyed_call. }
  apply H, well_keyed_init.
Qed.

(** * The ledger in floating point: signs *)

Lemma SFltb_zero (x : spec_float) :
  SFltb x (S754_zero false) = negb (SFnonneg x).
Proof. destruct x as [[|]|[|]| |[|] m e]; reflexivity. Qed.

Lemma binary_round_aux_nonneg (mx ex : Z) (lx : location) :
  SFnonneg (binary_round_aux prec emax false mx ex lx) = true.
Proof.
  unfold binary_round_aux.
  destruct (shr_fexp prec emax mx ex lx) as [mrs' e'].
  destruct (shr_fexp prec emax _ e' loc_Exact) as [mrs'' e''].
  destruct (shr_m mrs''); [reflexivity| |reflexivity].
  destruct (Z.leb _ _); reflexivity.
Qed.

Lemma binary_normalize_nonneg (m e : Z) (s : bool) :
  (0 <= m)%Z -> SFnonneg (binary_normalize prec emax m e s) = true.
Proof.
  destruct m as [|m|m]; intros H; [reflexivity| |lia].
  unfold binary_normalize, binary_round.
  destruct (shl_align _ _ _) as [mz ez]. apply binary_round_aux_nonneg.
Qed.

Lemma SFmul_nonneg (x y : spec_float) :
  SFnonneg x = true -> SFnonneg y = true ->
  SFnonneg (SFmul prec emax x y) = true.
Proof.
  destruct x as [[|]|[|]| |[|] mx ex], y as [[|]|[|]| |[|] my ey];
    cbn [SFnonneg SFmul xorb]; intros Hx Hy;
    try reflexivity; try discriminate.
  apply binary_round_aux_nonneg.
Qed.

Lemma SFadd_nonneg (x y : spec_float) :
  SFnonneg x = true -> SFnonneg y = true ->
  SFnonneg (SFadd prec emax x y) = true.
Proof.
  destruct x as [[|]|[|]| |[|] mx ex], y as [[|]|[|]| |[|] my ey];
    cbn [SFnonneg SFadd cond_Zopp]; intros Hx Hy;
    try reflexivity; try discriminate.
  apply binary_normalize_nonneg. lia.
Qed.

(** Mantissas, once aligned on the smaller exponent. *)
Lemma iter_xO (m d : positive) :
  Zpos (Pos.iter xO m d) = (Zpos m * 2 ^ Zpos d)%Z.
Proof.
  induction d as [|d IH] using Pos.peano_ind.
  - cbn. lia.
  - rewrite Pos.iter_succ, Pos2Z.inj_succ, Z.pow_succ_r by lia.
    rewrite Pos2Z.inj_xO, IH. lia.
Qed.

Lemma shl_align_value (m : positive) (e e' : Z) :
  (e' <= e)%Z -> Zpos (fst (shl_align m e e')) = (Zpos m * 2 ^ (e - e'))%Z.
Proof.
  intros H. unfold shl_align.
  destruct (Z.sub e' e) as [|d|d] eqn:E; cbn [fst].
  - replace (e - e')%Z with 0%Z by lia. cbn. lia.
  - lia.
  - rewrite iter_xO. replace (e - e')%Z with (Zpos d) by lia. reflexivity.
Qed.

Lemma digits2_pos_bounds (m : positive) :
  (2 ^ (Zpos (digits2_pos m) - 1) <= Zpos m < 2 ^ Zpos (digits2_pos m))%Z.
Proof.
  induction m as [m IH|m IH|]; cbn [digits2_pos].
  - rewrite Pos2Z.inj_succ, Z.pow_succ_r by lia.
    replace (Z.succ (Zpos (digits2_pos m)) - 1)%Z
      with (Z.succ (Zpos (digits2_pos m) - 1)) by lia.
    rewrite Z.pow_succ_r by lia. lia.
  - rewrite Pos2Z.inj_succ, Z.pow_succ_r by lia.
    replace (Z.succ (Zpos (digits2_pos m)) - 1)%Z
      with (Z.succ (Zpos (digits2_pos m) - 1)) by lia.
    rewrite Z.pow_succ_r by lia. lia.
  - cbn. lia.
Qed.

(** A mantissa of binary64 has at most 53 bits, and exactly 53 above the
    smallest exponent. *)
Lemma bounded_mantissa (m : positive) (e : Z) :
  bounded prec emax m e = true ->
  (emin <= e)%Z /\ (Zpos m < 2 ^ prec)%Z /\
  ((emin < e)%Z -> (2 ^ (prec - 1) <= Zpos m)%Z).
Proof.
  unfold bounded, canonical_mantissa, fexp. intros H.
  apply andb_prop in H as [H _]. apply Z.eqb_eq in H.
  pose proof (digits2_pos_bounds m) as [Hlo Hhi].
  set (d := Zpos (digits2_pos m)) in *.
  assert (Hd : (d <= prec)%Z) by lia.
  split; [lia|]. split.
  - eapply Z.lt_le_trans; [exact Hhi|]. apply Z.pow_le_mono_r; lia.
  - intros He. assert (Hp : d = prec) by lia. rewrite <- Hp. exact Hlo.
Qed.

Lemma aligned_lt (mx : positive) (ex : Z) (my : positive) (ey : Z) :
  bounded prec emax mx ex = true -> bounded prec emax my ey = true ->
  (ex < ey)%Z ->
  (Zpos (fst (shl_align mx ex ex)) < Zpos (fst (shl_align my ey ex)))%Z.
Proof.
  intros Hx Hy Hlt.
  apply bounded_mantissa in Hx as (Hex & Hmx & _).
  apply bounded_mantissa in Hy as (_ & _ & Hmy).
  rewrite !shl_align_value by lia.
  replace (ex - ex)%Z with 0%Z by lia. rewrite Z.pow_0_r, Z.mul_1_r.
  specialize (Hmy ltac:(lia)).
  assert (H2 : (2 ^ 1 <= 2 ^ (ey - ex))%Z) by (apply Z.pow_le_mono_r; lia).
  change (2 ^ 1)%Z with 2%Z in H2.
  assert (Hp : (2 ^ prec = 2 * 2 ^ (prec - 1))%Z) by reflexivity.
  nia.
Qed.

Lemma compare_cont_Eq_not_Lt (m n : positive) :
  Pos.compare_cont Eq m n <> Lt -> (Zpos n <= Zpos m)%Z.
Proof.
  change (Pos.compare_cont Eq m n) with (Pos.compare m n). intros H.
  destruct (Pos.compare_spec m n); [lia|congruence|lia].
Qed.

Lemma compare_cont_Eq_not_Gt (m n : positive) :
  Pos.compare_cont Eq m n <> Gt -> (Zpos m <= Zpos n)%Z.
Proof.
  change (Pos.compare_cont Eq m n) with (Pos.compare m n). intros H.
  destruct (Pos.compare_spec m n); [lia|lia|congruence].
Qed.

(** Of two positive floats the one that does not compare greater has the
    smaller aligned mantissa. *)
Lemma aligned_le (mx : positive) (ex : Z) (my : positive) (ey : Z) :
  bounded prec emax mx ex = true -> bounded prec emax my ey = true ->
  (SFltb (S754_finite false mx ex) (S754_finite false my ey) = false \/
   SFleb (S754_finite false my ey) (S754_finite false mx ex) = true) ->
  (Zpos (fst (shl_align my ey (Z.min ex ey))) <=
   Zpos (fst (shl_align mx ex (Z.min ex ey))))%Z.
Proof.
  intros Hx Hy H.
  destruct (Z.compare_spec ex ey) as [E|E|E].
  - subst ey. rewrite Z.min_id, !shl_align_value by lia.
    replace (ex - ex)%Z with 0%Z by lia. rewrite Z.pow_0_r, !Z.mul_1_r.
    unfold SFltb, SFleb in H. cbn [SFcompare] in H.
    rewrite Z.compare_refl in H.
    destruct H as [H|H].
    + apply compare_cont_Eq_not_Lt. intros C. rewrite C in H. discriminate.
    + apply compare_cont_Eq_not_Gt. intros C. rewrite C in H. discriminate.
  - exfalso. unfold SFltb, SFleb in H. cbn [SFcompare] in H.
    assert (E1 : (ex ?= ey)%Z = Lt) by (apply Z.compare_lt_iff; lia).
    assert (E2 : (ey ?= ex)%Z = Gt) by (apply Z.compare_gt_iff; lia).
    rewrite E1, E2 in H. destruct H; discriminate.
  - rewrite Z.min_r by lia. apply Z.lt_le_incl, aligned_lt; assumption.
Qed.

Lemma SFsub_nonneg (x y : spec_float) :
  valid_binary x = true -> valid_binary y = true ->
  SFnonneg x = true -> SFnonneg y = true -> SFltb x y = false ->
  SFnonneg (SFsub prec emax x y) = true.
Proof.
  destruct x as [[|]|[|]| |[|] mx ex], y as [[|]|[|]| |[|] my ey];
    cbn [SFnonneg SFsub cond_Zopp valid_binary negb];
    intros Vx Vy Hx Hy Hlt;
    try reflexivity; try discriminate.
  apply binary_normalize_nonneg.
  pose proof (aligned_le mx ex my ey Vx Vy (or_introl Hlt)). lia.
Qed.

Lemma SFadd_opp_nonneg (x y : spec_float) :
  valid_binary x = true -> valid_binary y = true ->
  SFnonneg x = true -> SFltb (S754_zero false) y = true -> SFleb y x = true ->
  SFnonneg (SFadd prec emax x (SFopp y)) = true.
Proof.
  destruct x as [[|]|[|]| |[|] mx ex], y as [[|]|[|]| |[|] my ey];
    cbn [SFnonneg SFadd SFopp cond_Zopp valid_binary negb];
    intros Vx Vy Hx Hy Hle;
    try reflexivity; try discriminate.
  apply binary_normalize_nonneg.
  pose proof (aligned_le mx ex my ey Vx Vy (or_intror Hle)). lia.
Qed.

(** The same on the floats of the machine. *)
Lemma nonneg_spec (x : float) : nonneg x <-> SFnonneg (Prim2SF x) = true.
Proof.
  unfold nonneg. rewrite FloatAxioms.ltb_spec.
  change (Prim2SF 0) with (S754_zero false). rewrite SFltb_zero.
  destruct (SFnonneg _); cbn; split; congruence.
Qed.

Lemma nonneg_add (x y : float) : nonneg x -> nonneg y -> nonneg (x + y).
Proof. rewrite !nonneg_spec, FloatAxioms.add_spec. apply SFadd_nonneg. Qed.

Lemma nonneg_mul (x y : float) : nonneg x -> nonneg y -> nonneg (x * y).
Proof. rewrite !nonneg_spec, FloatAxioms.mul_spec. apply SFmul_nonneg. Qed.

(** [x - y] is not below zero when [x < y] is false. *)
Lemma nonneg_sub (x y : float) :
  nonneg x -> nonneg y -> (x <? y)%float = false -> nonneg (x - y).
Proof.
  rewrite !nonneg_spec, FloatAxioms.sub_spec, FloatAxioms.ltb_spec.
  apply SFsub_nonneg; apply Prim2SF_valid.
Qed.

(** [x + (-y)] is not below zero when [x >= y] is true. *)
Lemma nonneg_add_opp (x y : float) :
  nonneg x -> (0 <? y)%float = true -> (y <=? x)%float = true ->
  nonneg (x + - y).
Proof.
  rewrite !nonneg_spec, FloatAxioms.add_spec, FloatAxioms.opp_spec, FloatAxioms.ltb_spec, FloatAxioms.leb_spec.
  change (Prim2SF 0) with (S754_zero false).
  apply SFadd_opp_nonneg; apply Prim2SF_valid.
Qed.

Lemma positive_nonneg (x : float) : (0 <? x)%float = true -> nonneg x.
Proof.
  rewrite nonneg_spec, FloatAxioms.ltb_spec. change (Prim2SF 0) with (S754_zero false).
  destruct (Prim2SF x) as [[|]|[|]| |[|] m e]; cbn; congruence.
Qed.

Lemma le_zero_nonneg (x : float) : (0 <=? x)%float = true -> nonneg x.
Proof.
  rewrite nonneg_spec, FloatAxioms.leb_spec. change (Prim2SF 0) with (S754_zero false).
  destruct (Prim2SF x) as [[|]|[|]| |[|] m e]; cbn; congruence.
Qed.

(** Nothing positive is at most a zero. *)
Lemma zero_holds_nothing (x y : float) :
  (x =? 0)%float = true -> (y <=? x)%float = true -> (0 <? y)%float = false.
Proof.
  rewrite FloatAxioms.eqb_spec, FloatAxioms.leb_spec, FloatAxioms.ltb_spec.
  change (Prim2SF 0) with (S754_zero false).
  destruct (Prim2SF x) as [[|]|[|]| |[|] m e],
           (Prim2SF y) as [[|]|[|]| |[|] m' e'];
    cbn; congruence.
Qed.


Lemma SFcompare_swap (x y : spec_float) :
  SFcompare y x =
  match SFcompare x y with Some c => Some (CompOpp c) | None => None end.
Proof.
  destruct x as [[|]|[|]| |[|] m e], y as [[|]|[|]| |[|] m' e'];
    cbn [SFcompare CompOpp]; try reflexivity;
    rewrite (Z.compare_antisym e e');
    change (Pos.compare_cont Eq) with Pos.compare;
    rewrite (Pos.compare_antisym m m');
    destruct (e ?= e')%Z, (m ?= m')%positive; reflexivity.
Qed.

(** When [x < y] is true, [x >= y] is false. *)
Lemma below_is_not_at_least (x y : float) :
  (x <? y)%float = true -> (y <=? x)%float = false.
Proof.
  rewrite FloatAxioms.ltb_spec, FloatAxioms.leb_spec. unfold SFltb, SFleb.
  rewrite (SFcompare_swap (Prim2SF x) (Prim2SF y)).
  destruct (SFcompare (Prim2SF x) (Prim2SF y)) as [[| |]|];
    cbn; congruence.
Qed.

Lemma SFeqb_self (x : spec_float) :
  SFeqb x x = match x with S754_nan => false | _ => true end.
Proof.
  destruct x as [[|]|[|]| |[|] m e]; try reflexivity;
    unfold SFeqb; cbn [SFcompare]; rewrite Z.compare_refl;
    change (Pos.compare_cont Eq m m) with (Pos.compare m m);
    rewrite Pos.compare_refl; reflexivity.
Qed.

(** A float is not below zero exactly when it is at least zero or NaN. *)
Lemma nonneg_iff (x : float) :
  nonneg x <-> (0 <=? x)%float = true \/ is_nan x = true.
Proof.
  unfold is_nan.
  rewrite nonneg_spec, FloatAxioms.leb_spec, FloatAxioms.eqb_spec, SFeqb_self.
  change (Prim2SF 0) with (S754_zero false).
  destruct (Prim2SF x) as [[|]|[|]| |[|] m e]; cbn;
    intuition congruence.
Qed.


(** * The ledger in floating point: settlements *)

Module IeeeFacts.

Import Ieee.
Local Open Scope float_scope.

(** The scenario of the specification: fund 100, buy 10 FOO at 5. *)
Example scenario_foo_binary64 :
  let m0 := add_funds init 100 in
  let '(t1, m1) :=
    place_trade m0 "FOO" BUY 10 5 "1700000000.25" 1700000000250000%Z in
  execute_trade m1 t1 None =
  (true,
   {| trades := [(t1, mkTrade t1 "FOO" BUY 10 5 1700000000250000%Z EXECUTED)];
      positions := {[ "FOO" := mkPosition "FOO" 10 5 50 ]};
      balance := 50 |}).
Proof. reflexivity. Qed.

(** With 1.0 in cash a BUY of 10 units at 0.1 settles: the cost the code
    compares with is the rounded product, which is 1.0. *)
Example ten_dimes_settle :
  (0.1 * 10 =? 1) = true /\
  fst (execute_trade ten_dimes "T" None) = true /\
  balance (snd (execute_trade ten_dimes "T" None)) = 0.
Proof. repeat split; reflexivity. Qed.

(** ** Settlement: refusal and success *)

Lemma refused_is_untouched (self : TradeManager) (trade_id : string)
    (execution_price : option float) :
  settle_refused self trade_id execution_price ->
  execute_trade self trade_id execution_price = (false, self).
Proof.
  unfold settle_refused, execute_trade.
  destruct (Dict.get (trades self) trade_id) as [trade|]; [|reflexivity].
  intros [Hst | [[Hty Hlt] | [Hty Hpos]]].
  - apply TradeStatus_eqb_neq in Hst. now rewrite Hst.
  - destruct (TradeStatus_eqb (status trade) PENDING); [simpl|reflexivity].
    rewrite Hty. now rewrite Hlt.
  - destruct (TradeStatus_eqb (status trade) PENDING); [simpl|reflexivity].
    rewrite Hty. unfold _has_sufficient_position.
    destruct (positions self !! symbol trade) as [pos|]; [|reflexivity].
    now rewrite Hpos.
Qed.

Lemma accepted_is_settled (self : TradeManager) (trade_id : string)
    (execution_price : option float) :
  ~ settle_refused self trade_id execution_price ->
  exists trade,
    Dict.get (trades self) trade_id = Some trade /\
    status trade = PENDING /\
    execute_trade self trade_id execution_price =
    (true,
     settled_at self trade_id trade (py_or execution_price (price trade))).
Proof.
  unfold settle_refused, execute_trade, settled_at, signed_quantity.
  destruct (Dict.get (trades self) trade_id) as [trade|]; [|tauto].
  intros Hno. exists trade. split; [reflexivity|].
  destruct (TradeStatus_eqb (status trade) PENDING) eqn:Est.
  2:{ apply TradeStatus_eqb_neq in Est. tauto. }
  apply TradeStatus_eqb_eq in Est. split; [exact Est|]. simpl.
  destruct (trade_type trade) eqn:Ety.
  - destruct (_ <? _) eqn:Elt; [|reflexivity]. tauto.
  - unfold _has_sufficient_position in *.
    destruct (positions self !! symbol trade) as [pos|]; [|tauto].
    destruct (_ <=? _) eqn:Ele; [reflexivity|]. tauto.
Qed.

Lemma settle_refused_or_not (self : TradeManager) (trade_id : string)
    (execution_price : option float) :
  settle_refused self trade_id execution_price \/
  ~ settle_refused self trade_id execution_price.
Proof.
  destruct (execute_trade self trade_id execution_price) as [b self'] eqn:E.
  destruct b.
  - right. intros H. apply refused_is_untouched in H. congruence.
  - left. unfold settle_refused, execute_trade in *.
    destruct (Dict.get (trades self) trade_id) as [trade|]; [|exact I].
    destruct (TradeStatus_eqb (status trade) PENDING) eqn:Est.
    2:{ left. now apply TradeStatus_eqb_neq. }
    simpl in E. right. destruct (trade_type trade).
    + left. split; [reflexivity|].
      destruct (_ <? _); [reflexivity|discriminate].
    + right. split; [reflexivity|]. unfold _has_sufficient_position in E.
      destruct (positions self !! symbol trade) as [pos|]; [|exact I].
      destruct (_ <=? _); [discriminate|reflexivity].
Qed.

Lemma settle_true (self : TradeManager) (trade_id : string)
    (execution_price : option float) :
  fst (execute_trade self trade_id execution_price) = true ->
  exists trade,
    Dict.get (trades self) trade_id = Some trade /\
    status trade = PENDING /\
    snd (execute_trade self trade_id execution_price) =
    settled_at self trade_id trade (py_or execution_price (price trade)).
Proof.
  intros Hok.
  destruct (settle_refused_or_not self trade_id execution_price) as [Hr | Hn].
  - rewrite (refused_is_untouched _ _ _ Hr) in Hok. discriminate.
  - destruct (accepted_is_settled _ _ _ Hn) as (trade & Hget & Hst & E).
    exists trade. rewrite E. auto.
Qed.

Lemma settle_false (self : TradeManager) (trade_id : string)
    (execution_price : option float) :
  fst (execute_trade self trade_id execution_price) = false ->
  execute_trade self trade_id execution_price = (false, self).
Proof.
  intros Hno.
  destruct (settle_refused_or_not self trade_id execution_price) as [Hr | Hn].
  - now apply refused_is_untouched.
  - destruct (accepted_is_settled _ _ _ Hn) as (trade & _ & _ & E).
    rewrite E in Hno. discriminate.
Qed.

(** A PENDING trade settles exactly when its guard lets it through. *)
Lemma settle_pending (self : TradeManager) (trade_id : string)
    (execution_price : option float) (trade : Trade) :
  Dict.get (trades self) trade_id = Some trade ->
  status trade = PENDING ->
  execute_trade self trade_id execution_price =
  let P := py_or execution_price (price trade) in
  if covered self trade P then (true, settled_at self trade_id trade P)
  else (false, self).
Proof.
  intros Hget Hst. unfold execute_trade, covered, settled_at, signed_quantity.
  rewrite Hget, Hst. simpl.
  destruct (trade_type trade).
  - now destruct (_ <? _).
  - now destruct (_has_sufficient_position _ _ _).
Qed.



(** ** A zero execution price *)

Lemma py_or_zero (p b : float) :
  (p =? 0) = true -> py_or (Some p) b = b.
Proof. intros H. unfold py_or. now rewrite H. Qed.

(** C10.  For a PENDING trade, [execute_trade] with a supplied price of
    zero does what it does with no price, at the price the trade was placed
    with: when the guard passes at that price (the balance is not below
    requested price times quantity for a BUY, the position suffices for a
    SELL) it returns [True], records the requested price in the EXECUTED
    trade, moves the balance by requested price times quantity and updates
    the position at the requested price; otherwise it returns [False] and
    changes nothing. *)
Theorem zero_execution_price_is_no_price (self : TradeManager)
    (trade_id : string) (trade : Trade) (p : float)
    (Hget : Dict.get (trades self) trade_id = Some trade)
    (Hst : status trade = PENDING)
    (Hp : (p =? 0) = true) :
  execute_trade self trade_id (Some p) = execute_trade self trade_id None /\
  execute_trade self trade_id (Some p) =
    (if covered self trade (price trade)
     then (true,
           {| trades := Dict.set (trades self) trade_id
                          (mark_executed trade (price trade));
              positions := _update_position (positions self) (symbol trade)
                             (signed_quantity trade) (price trade);
              balance := match trade_type trade with
                         | BUY => balance self - price trade * quantity trade
                         | SELL => balance self + price trade * quantity trade
                         end |})
     else (false, self)).
Proof.
  rewrite (settle_pending self trade_id (Some p) trade Hget Hst).
  rewrite (settle_pending self trade_id None trade Hget Hst).
  cbv zeta. rewrite (py_or_zero p (price trade) Hp). simpl.
  split; reflexivity.
Qed.

Lemma zero_execution_price_is_no_price_witness :
  execute_trade funded_pending_buy "T" (Some 0) =
  (true,
   {| trades := [("T", mkTrade "T" "FOO" BUY 1 5 0%Z EXECUTED)];
      positions := {[ "FOO" := mkPosition "FOO" 1 5 5 ]};
      balance := 95 |}).
Proof.
  destruct (zero_execution_price_is_no_price funded_pending_buy "T"
              (mkTrade "T" "FOO" BUY 1 5 0%Z PENDING) 0
              eq_refl eq_refl eq_refl) as [_ E].
  rewrite E. reflexivity.
Defined.

(** ** The average price *)

Lemma updated_position (ps : gmap string Position) (sym : string)
    (delta P : float) :
  exists pos',
    _update_position ps sym delta P !! sym = Some pos' /\
    pos_quantity pos' = take_in (pos_quantity (prior_position ps sym)) delta /\
    ((pos_quantity (prior_position ps sym) =? 0) = true ->
     pos_quantity pos' = delta /\ avg_price pos' = P) /\
    ((pos_quantity (prior_position ps sym) =? 0) = false ->
     pos_quantity pos' = pos_quantity (prior_position ps sym) + delta /\
     ((pos_quantity pos' =? 0) = false ->
      avg_price pos' =
        (pos_quantity (prior_position ps sym)
         * avg_price (prior_position ps sym) + delta * P)
        / (pos_quantity (prior_position ps sym) + delta)) /\
     ((pos_quantity pos' =? 0) = true -> avg_price pos' = 0)) /\
    market_value pos' = pos_quantity pos' * P.
Proof.
  unfold _update_position, prior_position, take_in.
  set (pos := default (mkPosition sym 0 0 0) (ps !! sym)).
  rewrite lookup_insert_eq. eexists. split; [reflexivity|].
  destruct (pos_quantity pos =? 0) eqn:E0; simpl.
  - split; [reflexivity|]. split; [auto|]. split; [discriminate|reflexivity].
  - split; [reflexivity|]. split; [discriminate|].
    split; [|reflexivity]. intros _. split; [reflexivity|].
    destruct (pos_quantity pos + delta =? 0) eqn:E1; simpl.
    + split; [discriminate|reflexivity].
    + split; [reflexivity|discriminate].
Qed.

Lemma updated_position_elsewhere (ps : gmap string Position)
    (sym sym' : string) (delta P : float) :
  sym <> sym' -> _update_position ps sym delta P !! sym' = ps !! sym'.
Proof.
  intros Hne. unfold _update_position. now rewrite lookup_insert_ne.
Qed.

(** C5.  A settlement that changes the position of a symbol by the signed
    quantity [delta] at price [P] leaves there a position whose average
    price is [P] if the prior quantity was zero (or there was no record),
    and otherwise the quantity-weighted mean
    [(prior_quantity * prior_avg + delta * P) / (prior_quantity + delta)],
    reset to zero when the resulting quantity is zero; its market value is
    the new quantity times [P].  The amounts are the floats these
    expressions evaluate to. *)
Theorem settlement_recomputes_average_price (self : TradeManager)
    (trade_id : string) (execution_price : option float) (trade : Trade)
    (Hget : Dict.get (trades self) trade_id = Some trade)
    (Hok : fst (execute_trade self trade_id execution_price) = true) :
  let delta := signed_quantity trade in
  let P := py_or execution_price (price trade) in
  let prior := prior_position (positions self) (symbol trade) in
  exists pos',
    positions (snd (execute_trade self trade_id execution_price))
      !! symbol trade = Some pos' /\
    ((pos_quantity prior =? 0) = true ->
     pos_quantity pos' = delta /\ avg_price pos' = P) /\
    ((pos_quantity prior =? 0) = false ->
     pos_quantity pos' = pos_quantity prior + delta /\
     ((pos_quantity pos' =? 0) = false ->
      avg_price pos' =
        (pos_quantity prior * avg_price prior + delta * P)
        / (pos_quantity prior + delta)) /\
     ((pos_quantity pos' =? 0) = true -> avg_price pos' = 0)) /\
    market_value pos' = pos_quantity pos' * P.
Proof.
  destruct (settle_true _ _ _ Hok) as (trade' & Hget' & _ & Hsnd).
  rewrite Hget in Hget'. injection Hget' as <-.
  rewrite Hsnd. simpl.
  destruct (updated_position (positions self) (symbol trade)
              (signed_quantity trade) (py_or execution_price (price trade)))
    as (pos' & Hlook & _ & H).
  exists pos'. split; [exact Hlook | exact H].
Qed.

(** Selling 4 of 10 FOO held at 5 for 6 each: the weighted mean
    [(10 * 5 + (-4) * 6) / (10 + (-4))] is the float 4.333333333333333. *)
Lemma settlement_recomputes_average_price_witness :
  exists pos',
    positions (snd (execute_trade ten_held_four_sold "S" None))
      !! "FOO" = Some pos' /\
    pos_quantity pos' = 6 /\
    avg_price pos' = 4.333333333333333 /\
    market_value pos' = 36.
Proof.
  destruct (settlement_recomputes_average_price ten_held_four_sold "S"
              None (mkTrade "S" "FOO" SELL 4 6 0%Z PENDING)
              eq_refl eq_refl)
    as (pos' & Hpos & _ & Hmean & Hmv).
  destruct (Hmean eq_refl) as (Hq & Havg & _).
  exists pos'. split; [exact Hpos|].
  split; [rewrite Hq; reflexivity|].
  split.
  - rewrite Havg; [reflexivity|]. rewrite Hq. reflexivity.
  - rewrite Hmv, Hq. reflexivity.
Defined.


(** ** The life cycle of a trade *)

Lemma cancel_pending (self : TradeManager) (trade_id : string)
    (trade : Trade) :
  Dict.get (trades self) trade_id = Some trade ->
  status trade = PENDING ->
  cancel_trade self trade_id =
  (true, {| trades := Dict.set (trades self) trade_id (mark_cancelled trade);
            positions := positions self; balance := balance self |}).
Proof.
  intros Hget Hst. unfold cancel_trade. rewrite Hget, Hst. reflexivity.
Qed.

Lemma cancel_not_pending (self : TradeManager) (trade_id : string) :
  status_of self trade_id <> Some PENDING ->
  cancel_trade self trade_id = (false, self).
Proof.
  unfold status_of, cancel_trade.
  destruct (Dict.get (trades self) trade_id) as [trade|]; [|reflexivity].
  simpl. intros H.
  destruct (TradeStatus_eqb (status trade) PENDING) eqn:E; [|reflexivity].
  apply TradeStatus_eqb_eq in E. congruence.
Qed.

Lemma settle_not_pending (self : TradeManager) (trade_id : string)
    (execution_price : option float) :
  status_of self trade_id <> Some PENDING ->
  execute_trade self trade_id execution_price = (false, self).
Proof.
  intros H. apply refused_is_untouched. unfold settle_refused.
  unfold status_of in H.
  destruct (Dict.get (trades self) trade_id) as [trade|]; [|exact I].
  left. simpl in H. congruence.
Qed.

Lemma status_after_set (self self' : TradeManager) (k trade_id : string)
    (trade : Trade) :
  trades self' = Dict.set (trades self) trade_id trade ->
  status_of self' k =
  if String.eqb trade_id k then Some (status trade) else status_of self k.
Proof.
  intros E. unfold status_of. rewrite E.
  destruct (String.eqb_spec trade_id k) as [->|Hne].
  - now rewrite DictFacts.get_set_eq.
  - now rewrite DictFacts.get_set_ne.
Qed.

Lemma status_after_settle (self : TradeManager) (trade_id k : string)
    (execution_price : option float) :
  status_of (snd (execute_trade self trade_id execution_price)) k =
  if fst (execute_trade self trade_id execution_price) && String.eqb trade_id k
  then Some EXECUTED else status_of self k.
Proof.
  destruct (fst (execute_trade self trade_id execution_price)) eqn:E.
  - destruct (settle_true _ _ _ E) as (trade & _ & _ & Hsnd).
    rewrite Hsnd. simpl.
    now rewrite (status_after_set self _ k trade_id (mark_executed trade
                   (py_or execution_price (price trade)))).
  - now rewrite (settle_false _ _ _ E).
Qed.

Lemma status_after_cancel (self : TradeManager) (trade_id k : string) :
  status_of (snd (cancel_trade self trade_id)) k =
  if fst (cancel_trade self trade_id) && String.eqb trade_id k
  then Some CANCELLED else status_of self k.
Proof.
  destruct (decide (status_of self trade_id = Some PENDING)) as [Hp | Hn].
  - unfold status_of in Hp.
    destruct (Dict.get (trades self) trade_id) as [trade|] eqn:Hget;
      [|discriminate].
    injection Hp as Hp.
    rewrite (cancel_pending _ _ _ Hget Hp). simpl.
    now rewrite (status_after_set self _ k trade_id (mark_cancelled trade)).
  - now rewrite (cancel_not_pending _ _ Hn).
Qed.

(** One settle or cancel call either leaves the status of [k] alone or
    takes it from PENDING to EXECUTED (a settle of [k] returning [True]) or
    from PENDING to CANCELLED (a cancel of [k] returning [True]). *)
Lemma lifecycle_step (self : TradeManager) (c : Call) (k : string) :
  lifecycle_call c ->
  status_of (call self c) k = status_of self k \/
  (status_of self k = Some PENDING /\
   ((exists p, c = ExecuteTrade k p /\
               lifecycle_result self c = Some true /\
               status_of (call self c) k = Some EXECUTED) \/
    (c = CancelTrade k /\
     lifecycle_result self c = Some true /\
     status_of (call self c) k = Some CANCELLED))).
Proof.
  destruct c as [a | | trade_id p | trade_id]; simpl; try tauto; intros _.
  - rewrite status_after_settle.
    destruct (fst (execute_trade self trade_id p)) eqn:E; [|now left].
    destruct (String.eqb_spec trade_id k) as [->|Hne]; [|now left].
    right. simpl. split.
    + destruct (decide (status_of self k = Some PENDING)) as [Hp|Hn];
        [exact Hp|].
      rewrite (settle_not_pending _ _ p Hn) in E. discriminate.
    + left. exists p. auto.
  - rewrite status_after_cancel.
    destruct (fst (cancel_trade self trade_id)) eqn:E; [|now left].
    destruct (String.eqb_spec trade_id k) as [->|Hne]; [|now left].
    right. simpl. split.
    + destruct (decide (status_of self k = Some PENDING)) as [Hp|Hn];
        [exact Hp|].
      rewrite (cancel_not_pending _ _ Hn) in E. discriminate.
    + right. auto.
Qed.

(** A settle of [k] that returns [True] leaves [k] EXECUTED, a cancel of
    [k] that returns [True] leaves it CANCELLED. *)
Lemma lifecycle_success (self : TradeManager) (c : Call) (k : string) :
  lifecycle_result self c = Some true ->
  ((exists p, c = ExecuteTrade k p) ->
   status_of self k = Some PENDING /\
   status_of (call self c) k = Some EXECUTED) /\
  (c = CancelTrade k ->
   status_of self k = Some PENDING /\
   status_of (call self c) k = Some CANCELLED).
Proof.
  intros Hres. split.
  - intros [p ->]. simpl in *. injection Hres as Hres.
    rewrite status_after_settle, Hres, String.eqb_refl. simpl.
    split; [|reflexivity].
    destruct (decide (status_of self k = Some PENDING)) as [Hp|Hn];
      [exact Hp|].
    rewrite (settle_not_pending _ _ p Hn) in Hres. discriminate.
  - intros ->. simpl in *. injection Hres as Hres.
    rewrite status_after_cancel, Hres, String.eqb_refl. simpl.
    split; [|reflexivity].
    destruct (decide (status_of self k = Some PENDING)) as [Hp|Hn];
      [exact Hp|].
    rewrite (cancel_not_pending _ _ Hn) in Hres. discriminate.
Qed.

Lemma not_pending_step (self : TradeManager) (c : Call) (k : string) :
  lifecycle_call c ->
  status_of self k <> Some PENDING ->
  status_of (call self c) k = status_of self k.
Proof.
  intros Hc Hn. destruct (lifecycle_step self c k Hc) as [H | [H _]];
    [exact H | contradiction].
Qed.

Lemma not_pending_run (self : TradeManager) (cs : list Call) (k : string) :
  Forall lifecycle_call cs ->
  status_of self k <> Some PENDING ->
  status_of (run self cs) k = status_of self k /\
  transitions self cs k = 0%nat.
Proof.
  intros Hcs. revert self.
  induction Hcs as [|c cs Hc _ IH]; intros self Hn; [now split|].
  pose proof (not_pending_step self c k Hc Hn) as Hstep.
  assert (Hn' : status_of (call self c) k <> Some PENDING) by congruence.
  destruct (IH _ Hn') as [IH1 IH2].
  unfold run in *. simpl. split; [congruence|].
  rewrite IH2. now rewrite decide_True.
Qed.

Lemma transitions_at_most_once (self : TradeManager) (cs : list Call)
    (k : string) :
  Forall lifecycle_call cs -> (transitions self cs k <= 1)%nat.
Proof.
  intros Hcs. revert self.
  induction Hcs as [|c cs Hc Hcs IH]; intros self; simpl; [lia|].
  destruct (decide (status_of (call self c) k = status_of self k)) as [He|Hne].
  - simpl. apply IH.
  - destruct (lifecycle_step self c k Hc) as [H | [_ H]]; [contradiction|].
    assert (Hn : status_of (call self c) k <> Some PENDING).
    { destruct H as [(p & _ & _ & H) | (_ & _ & H)]; rewrite H; discriminate. }
    destruct (not_pending_run _ cs k Hcs Hn) as [_ ->]. lia.
Qed.

Lemma run_app (self : TradeManager) (pre post : list Call) :
  run self (pre ++ post) = run (run self pre) post.
Proof. unfold run. apply foldl_app. Qed.

(** Once a trade is EXECUTED or CANCELLED, settle and cancel calls leave
    its status alone and every settle or cancel of it is refused. *)
Lemma terminal_stays (self : TradeManager) (cs : list Call) (k : string) :
  Forall lifecycle_call cs ->
  terminal (status_of self k) ->
  status_of (run self cs) k = status_of self k /\
  (forall p, execute_trade (run self cs) k p = (false, run self cs)) /\
  cancel_trade (run self cs) k = (false, run self cs).
Proof.
  intros Hcs Hterm.
  assert (Hn : status_of self k <> Some PENDING).
  { destruct Hterm as [H|H]; rewrite H; discriminate. }
  destruct (not_pending_run self cs k Hcs Hn) as [Hsame _].
  assert (Hn' : status_of (run self cs) k <> Some PENDING) by congruence.
  split; [exact Hsame|]. split.
  - intros p. now apply settle_not_pending.
  - now apply cancel_not_pending.
Qed.

(** C2.  Along every sequence of settle and cancel calls the status of a
    trade changes at most once; a change is PENDING to EXECUTED, made by a
    settle of that trade returning [True], or PENDING to CANCELLED, made by
    a cancel of that trade returning [True]; a settle of the trade that
    returns [True] does leave it EXECUTED, and a cancel that returns [True]
    leaves it CANCELLED, to the end of the sequence; once the status is
    EXECUTED or CANCELLED, every settle or cancel of that trade returns
    [False] and changes nothing; cancelling a PENDING trade twice returns
    [True] and then [False], the status being CANCELLED after the first
    call. *)
Theorem trade_status_changes_at_most_once (self : TradeManager)
    (cs : list Call) (trade_id : string)
    (Hcs : Forall lifecycle_call cs) :
  (transitions self cs trade_id <= 1)%nat /\
  (forall pre c post, cs = (pre ++ c :: post)%list ->
     let before := run self pre in
     status_of (call before c) trade_id <> status_of before trade_id ->
     status_of before trade_id = Some PENDING /\
     ((exists p, c = ExecuteTrade trade_id p /\
                 lifecycle_result before c = Some true /\
                 status_of (call before c) trade_id = Some EXECUTED) \/
      (c = CancelTrade trade_id /\
       lifecycle_result before c = Some true /\
       status_of (call before c) trade_id = Some CANCELLED))) /\
  (forall pre p post, cs = (pre ++ ExecuteTrade trade_id p :: post)%list ->
     let before := run self pre in
     fst (execute_trade before trade_id p) = true ->
     status_of before trade_id = Some PENDING /\
     status_of (snd (execute_trade before trade_id p)) trade_id
       = Some EXECUTED /\
     status_of (run self cs) trade_id = Some EXECUTED /\
     (forall p', execute_trade (run self cs) trade_id p'
                 = (false, run self cs)) /\
     cancel_trade (run self cs) trade_id = (false, run self cs)) /\
  (forall pre post, cs = (pre ++ CancelTrade trade_id :: post)%list ->
     let before := run self pre in
     fst (cancel_trade before trade_id) = true ->
     status_of before trade_id = Some PENDING /\
     status_of (snd (cancel_trade before trade_id)) trade_id
       = Some CANCELLED /\
     status_of (run self cs) trade_id = Some CANCELLED /\
     (forall p', execute_trade (run self cs) trade_id p'
                 = (false, run self cs)) /\
     cancel_trade (run self cs) trade_id = (false, run self cs)) /\
  (forall pre post, cs = (pre ++ post)%list ->
     let before := run self pre in
     terminal (status_of before trade_id) ->
     status_of (run before post) trade_id = status_of before trade_id /\
     (forall p, execute_trade (run before post) trade_id p
                = (false, run before post)) /\
     cancel_trade (run before post) trade_id = (false, run before post)) /\
  (status_of self trade_id = Some PENDING ->
   let first := cancel_trade self trade_id in
   let second := cancel_trade (snd first) trade_id in
   fst first = true /\
   status_of (snd first) trade_id = Some CANCELLED /\
   second = (false, snd first)).
Proof.
  split; [now apply transitions_at_most_once|].
  split; [|split; [|split; [|split]]].
  - intros pre c post -> before Hch.
    apply Forall_app in Hcs as [_ Hcs]. apply Forall_cons in Hcs as [Hc _].
    destruct (lifecycle_step before c trade_id Hc) as [H|H];
      [contradiction|exact H].
  - intros pre p post -> before Hok.
    apply Forall_app in Hcs as [_ Hcs]. apply Forall_cons in Hcs as [_ Hpost].
    destruct (lifecycle_success before (ExecuteTrade trade_id p) trade_id)
      as [[Hp He] _]; [simpl; now rewrite Hok | now exists p |].
    simpl in He. split; [exact Hp|]. split; [exact He|].
    assert (Hrun : run self (pre ++ ExecuteTrade trade_id p :: post)
                   = run (snd (execute_trade before trade_id p)) post)
      by (rewrite run_app; reflexivity).
    rewrite Hrun.
    destruct (terminal_stays (snd (execute_trade before trade_id p)) post
                trade_id Hpost) as (Hs & Hx & Hc);
      [left; exact He|].
    split; [now rewrite Hs|]. split; assumption.
  - intros pre post -> before Hok.
    apply Forall_app in Hcs as [_ Hcs]. apply Forall_cons in Hcs as [_ Hpost].
    destruct (lifecycle_success before (CancelTrade trade_id) trade_id)
      as [_ [Hp He]]; [simpl; now rewrite Hok | reflexivity |].
    simpl in He. split; [exact Hp|]. split; [exact He|].
    assert (Hrun : run self (pre ++ CancelTrade trade_id :: post)
                   = run (snd (cancel_trade before trade_id)) post)
      by (rewrite run_app; reflexivity).
    rewrite Hrun.
    destruct (terminal_stays (snd (cancel_trade before trade_id)) post
                trade_id Hpost) as (Hs & Hx & Hc);
      [right; exact He|].
    split; [now rewrite Hs|]. split; assumption.
  - intros pre post -> before Hterm.
    apply Forall_app in Hcs as [_ Hpost].
    now apply terminal_stays.
  - intros Hp first second. subst first second.
    unfold status_of in Hp.
    destruct (Dict.get (trades self) trade_id) as [trade|] eqn:Hget;
      [|discriminate].
    injection Hp as Hp.
    rewrite (cancel_pending _ _ _ Hget Hp). simpl.
    split; [reflexivity|].
    assert (Hc : status_of
              {| trades := Dict.set (trades self) trade_id (mark_cancelled trade);
                 positions := positions self; balance := balance self |}
              trade_id = Some CANCELLED).
    { unfold status_of. simpl. now rewrite DictFacts.get_set_eq. }
    split; [exact Hc|].
    apply cancel_not_pending. rewrite Hc. discriminate.
Qed.

(** Settling the funded BUY succeeds and leaves it EXECUTED; the cancel and
    the second settle that follow are refused, and so is any later one. *)
Lemma trade_status_changes_at_most_once_witness :
  fst (execute_trade funded_pending_buy "T" None) = true /\
  (transitions funded_pending_buy settle_cancel_settle "T" <= 1)%nat /\
  status_of (run funded_pending_buy settle_cancel_settle) "T"
    = Some EXECUTED /\
  execute_trade (run funded_pending_buy settle_cancel_settle) "T" None
    = (false, run funded_pending_buy settle_cancel_settle).
Proof.
  assert (Hcs : Forall lifecycle_call settle_cancel_settle)
    by (repeat constructor).
  destruct (trade_status_changes_at_most_once funded_pending_buy
              settle_cancel_settle "T" Hcs) as (Hone & _ & Hsettle & _).
  destruct (Hsettle [] None
              [CancelTrade "T"; ExecuteTrade "T" (Some 3)] eq_refl eq_refl)
    as (_ & _ & Hend & Hlater & _).
  split; [reflexivity|]. split; [exact Hone|]. split; [exact Hend|].
  apply Hlater.
Defined.

(** ** No overdraft, no short position *)

Lemma py_or_nonneg (p : option float) (b : float) :
  match p with Some x => (0 <=? x) = true | None => True end ->
  (0 <=? b) = true -> (0 <=? py_or p b) = true.
Proof.
  destruct p as [x|]; simpl; [|auto].
  intros Hx Hb. now destruct (x =? 0).
Qed.

Lemma solvent_init : solvent init.
Proof.
  split; simpl.
  - reflexivity.
  - intros sym pos H. now rewrite lookup_empty in H.
  - discriminate.
Qed.

Lemma solvent_add_funds (self : TradeManager) (amount : float) :
  solvent self -> solvent (add_funds self amount).
Proof.
  intros [Hb Hp Ht]. unfold add_funds.
  destruct (0 <? amount) eqn:E; [|now split].
  split; simpl; [|assumption|assumption].
  apply nonneg_add; [assumption | now apply positive_nonneg].
Qed.

Lemma solvent_place_trade (self : TradeManager) (sym : string)
    (side : TradeType) (qty prc : float) (stamp : string) (now : datetime) :
  (0 <? qty) = true -> (0 <=? prc) = true ->
  solvent self -> solvent (snd (place_trade self sym side qty prc stamp now)).
Proof.
  intros Hq Hpr [Hb Hp Ht]. split; simpl; [assumption|assumption|].
  intros k t.
  destruct (String.eqb_spec (trade_id_of sym side stamp) k) as [<-|Hne].
  - rewrite DictFacts.get_set_eq. intros [= <-]. now simpl.
  - rewrite DictFacts.get_set_ne by assumption. apply Ht.
Qed.

Lemma solvent_cancel_trade (self : TradeManager) (trade_id : string) :
  solvent self -> solvent (snd (cancel_trade self trade_id)).
Proof.
  intros Hs.
  destruct (decide (status_of self trade_id = Some PENDING)) as [Hp | Hn].
  2:{ now rewrite (cancel_not_pending _ _ Hn). }
  unfold status_of in Hp.
  destruct (Dict.get (trades self) trade_id) as [trade|] eqn:Hget;
    [|discriminate].
  injection Hp as Hp. rewrite (cancel_pending _ _ _ Hget Hp).
  destruct Hs as [Hb Hps Ht]. split; simpl; [assumption|assumption|].
  intros k t. destruct (String.eqb_spec trade_id k) as [<-|Hne].
  - rewrite DictFacts.get_set_eq. intros [= <-]. simpl. now apply (Ht trade_id).
  - rewrite DictFacts.get_set_ne by assumption. apply Ht.
Qed.

(** The cost of a settlement is not below zero. *)
Lemma cost_nonneg (self : TradeManager) (k : string) (trade : Trade)
    (execution_price : option float) :
  solvent self ->
  Dict.get (trades self) k = Some trade ->
  match execution_price with Some x => (0 <=? x) = true | None => True end ->
  (0 <=? py_or execution_price (price trade)) = true /\
  nonneg (py_or execution_price (price trade) * quantity trade).
Proof.
  intros [_ _ Ht] Hget Hpx. destruct (Ht _ _ Hget) as [Hq Hpr].
  pose proof (py_or_nonneg execution_price (price trade) Hpx Hpr) as HP.
  split; [exact HP|].
  apply nonneg_mul; [now apply le_zero_nonneg | now apply positive_nonneg].
Qed.

Lemma solvent_execute_trade (self : TradeManager) (trade_id : string)
    (execution_price : option float) :
  match execution_price with Some x => (0 <=? x) = true | None => True end ->
  solvent self -> solvent (snd (execute_trade self trade_id execution_price)).
Proof.
  intros Hpx Hs.
  destruct (fst (execute_trade self trade_id execution_price)) eqn:E.
  2:{ now rewrite (settle_false _ _ _ E). }
  destruct (settle_true _ _ _ E) as (trade & Hget & Hst & Hsnd).
  rewrite Hsnd. clear Hsnd.
  destruct (cost_nonneg self trade_id trade execution_price Hs Hget Hpx)
    as [HP Hcost].
  destruct Hs as [Hb Hps Ht].
  destruct (Ht _ _ Hget) as [Hq Hpr].
  set (P := py_or execution_price (price trade)) in *.
  rewrite (settle_pending self trade_id execution_price trade Hget Hst) in E.
  cbv zeta in E. fold P in E. unfold covered in E.
  split; unfold settled_at; simpl.
  - destruct (trade_type trade).
    + destruct (balance self <? P * quantity trade) eqn:Elt;
        [discriminate|].
      now apply nonneg_sub.
    + now apply nonneg_add.
  - intros sym pos Hlook.
    destruct (decide (symbol trade = sym)) as [<-|Hne].
    2:{ rewrite updated_position_elsewhere in Hlook by assumption. eauto. }
    destruct (updated_position (positions self) (symbol trade)
                (signed_quantity trade) P)
      as (pos' & Hlook' & Hqty & _).
    rewrite Hlook in Hlook'. injection Hlook' as <-.
    rewrite Hqty. unfold take_in, prior_position, signed_quantity.
    destruct (trade_type trade).
    + assert (Hprior : nonneg (pos_quantity
                (default (mkPosition (symbol trade) 0 0 0)
                   (positions self !! symbol trade)))).
      { destruct (positions self !! symbol trade) as [pos0|] eqn:E0; simpl.
        - eauto.
        - reflexivity. }
      destruct (_ =? 0).
      * now apply positive_nonneg.
      * apply nonneg_add; [assumption | now apply positive_nonneg].
    + unfold _has_sufficient_position in E.
      destruct (positions self !! symbol trade) as [pos0|] eqn:E0;
        [|discriminate]. simpl.
      destruct (quantity trade <=? pos_quantity pos0) eqn:Ele;
        [|discriminate].
      destruct (pos_quantity pos0 =? 0) eqn:Ez.
      * pose proof (zero_holds_nothing _ _ Ez Ele) as Hc. congruence.
      * apply nonneg_add_opp; eauto.
  - intros k t. destruct (String.eqb_spec trade_id k) as [<-|Hne].
    + rewrite DictFacts.get_set_eq. intros [= <-]. simpl. auto.
    + rewrite DictFacts.get_set_ne by assumption. apply Ht.
Qed.

Lemma solvent_run (self : TradeManager) (cs : list Call) :
  Forall wellformed_call cs -> solvent self -> solvent (run self cs).
Proof.
  intros Hcs. revert self.
  induction Hcs as [|c cs Hc _ IH]; intros self Hs; [exact Hs|].
  unfold run. simpl. apply IH.
  destruct c as [a | sym side qty prc stamp now | trade_id p | trade_id]; simpl.
  - now apply solvent_add_funds.
  - destruct Hc. now apply solvent_place_trade.
  - apply solvent_execute_trade; [|assumption]. now destruct p.
  - now apply solvent_cancel_trade.
Qed.

(** C3, as amended.  After any sequence of [add_funds], [place_trade],
    [execute_trade] and [cancel_trade] calls with positive quantities and
    non-negative prices, the balance is never below zero and no position
    has a quantity below zero: each is at least zero, or NaN.  There, a BUY
    settlement that would leave a balance below zero, and any BUY whose
    cost exceeds the balance, is refused and changes nothing; a BUY
    settlement that goes through leaves balance minus cost, which is not
    below zero; and a SELL settlement of a symbol that is not held, or of
    more than is held, is refused and changes nothing. *)
Theorem balance_and_positions_never_negative (cs : list Call)
    (Hcs : Forall wellformed_call cs) :
  let self := run init cs in
  ((balance self <? 0) = false /\
   ((0 <=? balance self) = true \/ is_nan (balance self) = true)) /\
  (forall sym pos, positions self !! sym = Some pos ->
     (pos_quantity pos <? 0) = false /\
     ((0 <=? pos_quantity pos) = true \/ is_nan (pos_quantity pos) = true)) /\
  (forall trade_id p trade,
     Dict.get (trades self) trade_id = Some trade ->
     trade_type trade = BUY ->
     match p with Some x => (0 <=? x) = true | None => True end ->
     (balance self - py_or p (price trade) * quantity trade <? 0) = true \/
     (balance self <? py_or p (price trade) * quantity trade) = true ->
     execute_trade self trade_id p = (false, self)) /\
  (forall trade_id p trade,
     Dict.get (trades self) trade_id = Some trade ->
     trade_type trade = BUY ->
     match p with Some x => (0 <=? x) = true | None => True end ->
     fst (execute_trade self trade_id p) = true ->
     balance (snd (execute_trade self trade_id p)) =
       balance self - py_or p (price trade) * quantity trade /\
     (balance self - py_or p (price trade) * quantity trade <? 0) = false) /\
  (forall trade_id p trade,
     Dict.get (trades self) trade_id = Some trade ->
     trade_type trade = SELL ->
     match positions self !! symbol trade with
     | Some pos => (pos_quantity pos <? quantity trade) = true
     | None => True
     end ->
     execute_trade self trade_id p = (false, self)).
Proof.
  intros self.
  pose proof (solvent_run init cs Hcs solvent_init) as Hs.
  fold self in Hs. pose proof Hs as [Hb Hp Ht].
  split; [split; [exact Hb | now apply nonneg_iff]|].
  split; [intros sym pos Hlook; split;
          [exact (Hp sym pos Hlook) | apply nonneg_iff, (Hp sym pos Hlook)]|].
  split; [|split].
  - intros trade_id p trade Hget Hty Hpx Hlt.
    destruct (fst (execute_trade self trade_id p)) eqn:E;
      [|now apply settle_false].
    exfalso.
    destruct (settle_true _ _ _ E) as (trade' & Hget' & Hst & _).
    rewrite Hget in Hget'. injection Hget' as <-.
    rewrite (settle_pending self trade_id p trade Hget Hst) in E.
    cbv zeta in E. unfold covered in E. rewrite Hty in E.
    destruct (balance self <? _) eqn:Elt; [discriminate|].
    destruct Hlt as [Hlt|Hlt]; [|discriminate].
    destruct (cost_nonneg self trade_id trade p Hs Hget Hpx) as [_ Hcost].
    pose proof (nonneg_sub _ _ Hb Hcost Elt) as Hn.
    unfold nonneg in Hn. congruence.
  - intros trade_id p trade Hget Hty Hpx Hok.
    destruct (settle_true _ _ _ Hok) as (trade' & Hget' & Hst & Hsnd).
    rewrite Hget in Hget'. injection Hget' as <-.
    rewrite Hsnd. unfold settled_at. simpl. rewrite Hty.
    split; [reflexivity|].
    rewrite (settle_pending self trade_id p trade Hget Hst) in Hok.
    cbv zeta in Hok. unfold covered in Hok. rewrite Hty in Hok.
    destruct (balance self <? _) eqn:Elt; [discriminate|].
    destruct (cost_nonneg self trade_id trade p Hs Hget Hpx) as [_ Hcost].
    exact (nonneg_sub _ _ Hb Hcost Elt).
  - intros trade_id p trade Hget Hty Hlt.
    apply refused_is_untouched. unfold settle_refused. rewrite Hget.
    right. right. split; [exact Hty|].
    destruct (positions self !! symbol trade) as [pos|]; [|exact I].
    now apply below_is_not_at_least.
Qed.

(** Fund 100, buy 10 FOO at 5, sell 4 at 6: the balance is 74, 6 FOO are
    held, and the settled SELL cannot be settled again. *)
Lemma balance_and_positions_never_negative_witness :
  balance (run init fund_buy_sell) = 74 /\
  positions (run init fund_buy_sell) !! "FOO"
    = Some (mkPosition "FOO" 6 4.333333333333333 36) /\
  ((0 <=? balance (run init fund_buy_sell)) = true \/
   is_nan (balance (run init fund_buy_sell)) = true) /\
  (forall sym pos, positions (run init fund_buy_sell) !! sym = Some pos ->
     (0 <=? pos_quantity pos) = true \/ is_nan (pos_quantity pos) = true).
Proof.
  assert (H : Forall wellformed_call fund_buy_sell).
  { repeat constructor; simpl; try exact I; try split; reflexivity. }
  destruct (balance_and_positions_never_negative fund_buy_sell H)
    as ([_ Hb] & Hp & _).
  split; [reflexivity|]. split; [reflexivity|]. split; [exact Hb|].
  intros sym pos Hlook. exact (proj2 (Hp sym pos Hlook)).
Defined.

(** C3, as stated, fails when amounts overflow: after two deposits of 1e308
    a BUY of 1e308 units at 1e308 settles and leaves a balance that is not
    at least zero (it is NaN), and after two BUYs of 1e308 units a SELL of
    [inf] units settles and leaves a position whose quantity is not at least
    zero (NaN again). *)
Lemma overflow_leaves_nan :
  (Forall wellformed_call overflowing_buy /\
   (0 <=? balance (run init overflowing_buy)) = false) /\
  (Forall wellformed_call overflowing_sell /\
   exists pos,
     positions (run init overflowing_sell) !! "FOO" = Some pos /\
     (0 <=? pos_quantity pos) = false).
Proof.
  split; split.
  - repeat constructor; simpl; try exact I; try split; reflexivity.
  - reflexivity.
  - repeat constructor; simpl; try exact I; try split; reflexivity.
  - eexists. split; reflexivity.
Qed.


(** ** Positions against executed trades *)

Lemma executed_trades_set_idle (ts : list (string * Trade)) (k sym : string)
    (new : Trade) :
  executed_on sym new = false ->
  (forall old, Dict.get ts k = Some old -> executed_on sym old = false) ->
  executed_trades (Dict.set ts k new) sym = executed_trades ts sym.
Proof.
  intros Hnew. induction ts as [|[k0 t0] ts IH]; simpl; intros Hold.
  - now rewrite Hnew.
  - destruct (String.eqb k0 k); simpl.
    + rewrite Hnew. now rewrite (Hold t0 eq_refl).
    + now rewrite (IH Hold).
Qed.

Lemma executed_trades_set_executed (ts : list (string * Trade))
    (k sym : string) (old new : Trade) :
  Dict.get ts k = Some old ->
  executed_on sym old = false ->
  executed_on sym new = true ->
  Permutation (executed_trades ts sym ++ [new])
              (executed_trades (Dict.set ts k new) sym).
Proof.
  intros Hget Hold Hnew. induction ts as [|[k0 t0] ts IH]; simpl in *;
    [discriminate|].
  destruct (String.eqb k0 k); simpl.
  - injection Hget as ->. rewrite Hold, Hnew.
    symmetry. apply Permutation_cons_append.
  - destruct (executed_on sym t0); simpl; auto.
Qed.

Lemma accumulated_snoc (l : list Trade) (t : Trade) :
  accumulated (l ++ [t]) = take_in (accumulated l) (signed_quantity t).
Proof. unfold accumulated. now rewrite foldl_app. Qed.

Lemma executed_on_pending (sym : string) (t : Trade) :
  status t <> EXECUTED -> executed_on sym t = false.
Proof.
  intros H. unfold executed_on. apply TradeStatus_eqb_neq in H.
  now rewrite H.
Qed.

(** A call that settles nothing on [sym] leaves the position of [sym] and
    its EXECUTED trades as they are. *)
Lemma follows_set_idle (self self' : TradeManager) (sym k : string)
    (new : Trade) (l : list Trade) :
  follows self sym l ->
  trades self' = Dict.set (trades self) k new ->
  positions self' !! sym = positions self !! sym ->
  executed_on sym new = false ->
  (forall old, Dict.get (trades self) k = Some old ->
               executed_on sym old = false) ->
  follows self' sym l.
Proof.
  intros [Hperm Hpos] Ht Hp Hnew Hold. unfold follows.
  rewrite Ht, Hp, (executed_trades_set_idle _ _ _ _ Hnew Hold).
  now split.
Qed.

Lemma follows_execute_trade (self : TradeManager) (trade_id : string)
    (p : option float) (sym : string) (l : list Trade) :
  follows self sym l ->
  follows (snd (execute_trade self trade_id p)) sym
    (l ++ settlements self [ExecuteTrade trade_id p] sym).
Proof.
  intros Hf. simpl. rewrite app_nil_r.
  destruct (fst (execute_trade self trade_id p)) eqn:E.
  2:{ rewrite (settle_false _ _ _ E). simpl.
      destruct (Dict.get (trades self) trade_id); now rewrite app_nil_r. }
  destruct (settle_true _ _ _ E) as (trade & Hget & Hst & Hsnd).
  rewrite Hsnd, Hget. clear Hsnd E. simpl.
  set (P := py_or p (price trade)).
  assert (Hold : executed_on sym trade = false)
    by (apply executed_on_pending; rewrite Hst; discriminate).
  destruct (String.eqb_spec (symbol trade) sym) as [<-|Hne].
  - destruct Hf as [Hperm Hpos]. split; simpl.
    + etransitivity; [apply Permutation_app_tail, Hperm|].
      apply (executed_trades_set_executed _ _ _ trade); [assumption..|].
      unfold executed_on. simpl. now rewrite String.eqb_refl.
    + destruct (updated_position (positions self) (symbol trade)
                  (signed_quantity trade) P)
        as (pos' & -> & Hqty & _).
      rewrite Hqty, accumulated_snoc.
      change (signed_quantity (mark_executed trade P))
        with (signed_quantity trade).
      f_equal. unfold prior_position.
      destruct (positions self !! symbol trade) as [pos|]; simpl.
      * exact Hpos.
      * now rewrite Hpos.
  - rewrite app_nil_r.
    apply (follows_set_idle self _ sym trade_id (mark_executed trade P));
      [exact Hf | reflexivity | | |].
    + simpl. now apply updated_position_elsewhere.
    + unfold executed_on. simpl.
      destruct (String.eqb_spec (symbol trade) sym); [contradiction|].
      reflexivity.
    + intros old. rewrite Hget. now intros [= <-].
Qed.

Lemma follows_cancel_trade (self : TradeManager) (trade_id sym : string)
    (l : list Trade) :
  follows self sym l -> follows (snd (cancel_trade self trade_id)) sym l.
Proof.
  intros Hf.
  destruct (decide (status_of self trade_id = Some PENDING)) as [Hp | Hn].
  2:{ now rewrite (cancel_not_pending _ _ Hn). }
  unfold status_of in Hp.
  destruct (Dict.get (trades self) trade_id) as [trade|] eqn:Hget;
    [|discriminate].
  injection Hp as Hp. rewrite (cancel_pending _ _ _ Hget Hp).
  apply (follows_set_idle self _ sym trade_id (mark_cancelled trade));
    [exact Hf | reflexivity | reflexivity | reflexivity |].
  intros old. rewrite Hget. intros [= <-].
  apply executed_on_pending. rewrite Hp. discriminate.
Qed.

Lemma settlements_cons (self : TradeManager) (c : Call) (cs : list Call)
    (sym : string) :
  settlements self (c :: cs) sym =
  (settlements self [c] sym ++ settlements (call self c) cs sym)%list.
Proof. simpl. now rewrite app_nil_r. Qed.

Lemma follows_call (self : TradeManager) (c : Call) (sym : string)
    (l : list Trade) :
  no_executed_replaced self [c] ->
  follows self sym l ->
  follows (call self c) sym (l ++ settlements self [c] sym).
Proof.
  intros [Hc _] Hf.
  destruct c as [a | s side qty prc stamp now | trade_id p | trade_id].
  - simpl. rewrite app_nil_r. unfold add_funds. now destruct (0 <? a).
  - simpl. rewrite app_nil_r.
    apply (follows_set_idle self _ sym (trade_id_of s side stamp)
             (mkTrade (trade_id_of s side stamp) s side qty prc now PENDING));
      [exact Hf | reflexivity | reflexivity | reflexivity |].
    intros old Hget. apply executed_on_pending.
    unfold status_of in Hc. rewrite Hget in Hc. simpl in Hc. congruence.
  - now apply follows_execute_trade.
  - simpl. rewrite app_nil_r. now apply follows_cancel_trade.
Qed.

Lemma follows_run (cs : list Call) (self : TradeManager) (sym : string)
    (l : list Trade) :
  no_executed_replaced self cs ->
  follows self sym l ->
  follows (run self cs) sym (l ++ settlements self cs sym).
Proof.
  revert self l. induction cs as [|c cs IH]; intros self l Hkeep Hf.
  - simpl. now rewrite app_nil_r.
  - destruct Hkeep as [Hc Hkeep].
    change (run self (c :: cs)) with (run (call self c) cs).
    rewrite settlements_cons, app_assoc. apply IH; [exact Hkeep|].
    apply follows_call; [|exact Hf]. simpl. auto.
Qed.

Lemma follows_init (sym : string) : follows init sym [].
Proof. split; [constructor|]. simpl. now rewrite lookup_empty. Qed.

(** C4, as amended.  After any sequence of [add_funds], [place_trade],
    [execute_trade] and [cancel_trade] calls in which no [place_trade] gets
    the id of an EXECUTED trade, the EXECUTED trades on a symbol in the
    trade set are the trades on it that were settled; the quantity of its
    position is what their signed quantities, BUY as it is and SELL
    negated, add up to when they are taken in one after the other in the
    order of settlement, in float arithmetic, a quantity taken in by a
    position of zero replacing it; and a symbol without position has no
    EXECUTED trade. *)
Theorem position_is_sum_of_executed_trades (cs : list Call)
    (Hkeep : no_executed_replaced init cs) (sym : string) :
  let self := run init cs in
  Permutation (settlements init cs sym) (executed_trades (trades self) sym) /\
  match positions self !! sym with
  | Some pos => pos_quantity pos = accumulated (settlements init cs sym)
  | None => executed_trades (trades self) sym = []
  end.
Proof.
  destruct (follows_run cs init sym [] Hkeep (follows_init sym))
    as [Hperm Hpos].
  simpl in *. split; [exact Hperm|].
  destruct (positions (run init cs) !! sym) as [pos|]; [exact Hpos|].
  rewrite Hpos in Hperm. now apply Permutation_nil.
Qed.

(** Buying 10 FOO and selling 4 leaves 6, which is [0 + 10] taken in by an
    empty position and then [10 + (-4)]. *)
Lemma position_is_sum_of_executed_trades_witness :
  exists pos,
    positions (run init fund_buy_sell) !! "FOO" = Some pos /\
    pos_quantity pos = 6 /\
    length (executed_trades (trades (run init fund_buy_sell)) "FOO") = 2%nat.
Proof.
  assert (Hkeep : no_executed_replaced init fund_buy_sell)
    by (simpl; repeat split; discriminate).
  destruct (position_is_sum_of_executed_trades fund_buy_sell Hkeep "FOO")
    as [Hperm Hpos].
  cbv zeta in Hpos.
  destruct (positions (run init fund_buy_sell) !! "FOO") as [pos|] eqn:E;
    [|vm_compute in E; discriminate E].
  exists pos. split; [reflexivity|]. split.
  - rewrite Hpos. reflexivity.
  - rewrite <- (Permutation_length Hperm). reflexivity.
Defined.

(** C4, as stated, fails in two ways.  A second [place_trade] at the clock
    reading of an EXECUTED trade takes its place in the dict, and the
    position of 10 FOO is left with no EXECUTED trade behind it.  And with
    ids that are all different, floats do not add up like numbers: after
    BUY 1e17, BUY 1, SELL 1e17, settled in this order, the position is 0
    where the EXECUTED trades sum to 1, in the order of the dict as well as
    exactly. *)
Lemma position_outlives_overwritten_trade :
  ~ positions_match_executed (run init buy_settle_buy_same_clock) /\
  (no_executed_replaced init unit_absorbed /\
   ~ positions_match_executed (run init unit_absorbed) /\
   positions (run init unit_absorbed) !! "FOO"
     = Some (mkPosition "FOO" 0 0 0) /\
   signed_sum (executed_trades (trades (run init unit_absorbed)) "FOO") = 1).
Proof.
  split; [|split; [|split; [|split]]].
  - intros H. specialize (H "FOO"). discriminate H.
  - simpl. repeat split; discriminate.
  - intros H. specialize (H "FOO"). discriminate H.
  - reflexivity.
  - reflexivity.
Qed.

(** ** Calls that settle nothing *)

(** X9.  Only [execute_trade] moves a position: a sequence of [add_funds],
    [place_trade] and [cancel_trade] calls leaves the positions dict as it
    was, and the balance is the old balance with the amounts [add_funds]
    accepted added to it one after the other. *)
Theorem without_settlement_positions_stay (self : TradeManager)
    (cs : list Call) (Hcs : Forall no_settlement cs) :
  positions (run self cs) = positions self /\
  balance (run self cs) = paid_in (balance self) (deposits cs).
Proof.
  revert self. induction Hcs as [|c cs Hc _ IH]; intros self; [now split|].
  change (run self (c :: cs)) with (run (call self c) cs).
  destruct (IH (call self c)) as [IHp IHb]. rewrite IHp, IHb.
  destruct c as [a | s side qty prc stamp now | trade_id p | trade_id];
    simpl in *; try contradiction.
  - unfold add_funds. destruct (0 <? a); simpl; now split.
  - now split.
  - destruct (decide (status_of self trade_id = Some PENDING)) as [Hp | Hn].
    2:{ rewrite (cancel_not_pending _ _ Hn). now split. }
    unfold status_of in Hp.
    destruct (Dict.get (trades self) trade_id) as [trade|] eqn:Hget;
      [|discriminate].
    injection Hp as Hp. rewrite (cancel_pending _ _ _ Hget Hp). now split.
Qed.

Lemma without_settlement_positions_stay_witness :
  positions (run funded_pending_buy
               [AddFunds 0.1; PlaceTrade "BAR" SELL 1 2 "1.5" 1500000%Z;
                CancelTrade "T"; AddFunds 0.2])
  = positions funded_pending_buy /\
  balance (run funded_pending_buy
             [AddFunds 0.1; PlaceTrade "BAR" SELL 1 2 "1.5" 1500000%Z;
              CancelTrade "T"; AddFunds 0.2])
  = 100 + 0.1 + 0.2.
Proof.
  apply (without_settlement_positions_stay funded_pending_buy).
  repeat constructor.
Defined.

(** ** A refused settlement can be tried again *)

(** X10.  A BUY refused for lack of funds stays PENDING and can be retried:
    while [balance < cost] is true [execute_trade] returns [False] and
    changes nothing; after an [add_funds] of a positive amount that makes
    [balance + amount < cost] false, the same call returns [True] and
    leaves [(balance + amount) - cost].  The cost is the float
    [price * quantity]. *)
Theorem refused_buy_settles_after_deposit (self : TradeManager)
    (trade_id : string) (execution_price : option float) (trade : Trade)
    (amount : float)
    (Hget : Dict.get (trades self) trade_id = Some trade)
    (Hst : status trade = PENDING)
    (Hty : trade_type trade = BUY)
    (Hshort : (balance self
               <? py_or execution_price (price trade) * quantity trade) = true)
    (Hamount : (0 <? amount) = true)
    (Henough : (balance self + amount
                <? py_or execution_price (price trade) * quantity trade)
               = false) :
  let cost := py_or execution_price (price trade) * quantity trade in
  execute_trade self trade_id execution_price = (false, self) /\
  status_of self trade_id = Some PENDING /\
  fst (execute_trade (add_funds self amount) trade_id execution_price) = true /\
  balance (snd (execute_trade (add_funds self amount) trade_id execution_price))
  = balance self + amount - cost /\
  status_of (snd (execute_trade (add_funds self amount) trade_id
                    execution_price)) trade_id = Some EXECUTED.
Proof.
  intros cost.
  rewrite (settle_pending self trade_id execution_price trade Hget Hst).
  cbv zeta. unfold covered at 1. rewrite Hty, Hshort. simpl.
  split; [reflexivity|].
  split; [unfold status_of; rewrite Hget; simpl; now rewrite Hst|].
  assert (Hfunded : add_funds self amount =
                    {| trades := trades self; positions := positions self;
                       balance := balance self + amount |})
    by (unfold add_funds; now rewrite Hamount).
  rewrite Hfunded.
  rewrite (settle_pending
             {| trades := trades self; positions := positions self;
                balance := balance self + amount |}
             trade_id execution_price trade Hget Hst).
  cbv zeta. unfold covered. rewrite Hty. simpl. rewrite Henough. simpl.
  split; [reflexivity|]. split; [now rewrite Hty|].
  unfold status_of. simpl. now rewrite DictFacts.get_set_eq.
Qed.

Lemma refused_buy_settles_after_deposit_witness :
  execute_trade one_pending_buy "T" None = (false, one_pending_buy) /\
  fst (execute_trade (add_funds one_pending_buy 7.5) "T" None) = true /\
  balance (snd (execute_trade (add_funds one_pending_buy 7.5) "T" None)) = 2.5.
Proof.
  destruct (refused_buy_settles_after_deposit one_pending_buy "T" None
              (mkTrade "T" "FOO" BUY 1 5 0%Z PENDING) 7.5
              eq_refl eq_refl eq_refl eq_refl eq_refl eq_refl)
    as (Hno & _ & Hok & Hbal & _).
  split; [exact Hno|]. split; [exact Hok|].
  rewrite Hbal. reflexivity.
Defined.

End IeeeFacts.

(** * The feed listener *)


(** * Retries with exponential backoff *)

Lemma attempts_from_S (api : nat -> Attempt) (retries : Z)
    (attempt rest : nat) :
  attempts_from api retries attempt (S rest) =
  match api attempt with
  | Answered content => (content, [Called attempt])
  | Raised =>
      if (Z.of_nat attempt =? retries - 1)%Z then ("", [Called attempt])
      else
        let '(result, trace) := attempts_from api retries (S attempt) rest in
        (result, Called attempt :: Slept (2 ^ Z.of_nat attempt) :: trace)
  end.
Proof. reflexivity. Qed.

Lemma attempts_from_answer (api : nat -> Attempt) (retries : Z)
    (content : string) (k from remaining : nat) :
  (k < remaining)%nat ->
  (Z.of_nat (from + k) < retries)%Z ->
  (forall j, (j < k)%nat -> api (from + j)%nat = Raised) ->
  api (from + k)%nat = Answered content ->
  attempts_from api retries from remaining = (content, backoff_trace from k).
Proof.
  revert from remaining.
  induction k as [|k IH]; intros from remaining Hrem Hlt Hfail Hok.
  - destruct remaining as [|rest]; [lia|].
    rewrite attempts_from_S. cbn [backoff_trace].
    rewrite Nat.add_0_r in Hok. now rewrite Hok.
  - destruct remaining as [|rest]; [lia|].
    rewrite attempts_from_S. cbn [backoff_trace].
    pose proof (Hfail 0%nat ltac:(lia)) as H0. rewrite Nat.add_0_r in H0.
    rewrite H0.
    destruct (Z.eqb_spec (Z.of_nat from) (retries - 1)) as [E|_]; [lia|].
    rewrite (IH (S from) rest); [reflexivity|lia|..].
    + replace (S from + k)%nat with (from + S k)%nat by lia. exact Hlt.
    + intros j Hj. replace (S from + j)%nat with (from + S j)%nat by lia.
      apply Hfail. lia.
    + replace (S from + k)%nat with (from + S k)%nat by lia. exact Hok.
Qed.

Lemma attempts_from_exhausted (api : nat -> Attempt) (retries : Z)
    (from n : nat) :
  Z.of_nat (from + n) = (retries - 1)%Z ->
  (forall j, (j <= n)%nat -> api (from + j)%nat = Raised) ->
  attempts_from api retries from (S n) = ("", backoff_trace from n).
Proof.
  revert from.
  induction n as [|n IH]; intros from Hlast Hfail;
    rewrite attempts_from_S; cbn [backoff_trace];
    pose proof (Hfail 0%nat ltac:(lia)) as H0; rewrite Nat.add_0_r in H0;
    rewrite H0.
  - rewrite Nat.add_0_r in Hlast. rewrite Hlast, Z.eqb_refl. reflexivity.
  - destruct (Z.eqb_spec (Z.of_nat from) (retries - 1)) as [E|_]; [lia|].
    rewrite (IH (S from)); [reflexivity|lia|].
    intros j Hj. replace (S from + j)%nat with (from + S j)%nat by lia.
    apply Hfail. lia.
Qed.

Lemma backoff_trace_calls (from n : nat) :
  calls_made (backoff_trace from n) = S n.
Proof.
  revert from. induction n as [|n IH]; intros from; [reflexivity|].
  cbn [backoff_trace]. unfold calls_made in *. cbn [List.filter length].
  now rewrite IH.
Qed.

Lemma backoff_trace_slept (from n : nat) :
  seconds_slept (backoff_trace from n)
  = (2 ^ Z.of_nat (from + n) - 2 ^ Z.of_nat from)%Z.
Proof.
  revert from. induction n as [|n IH]; intros from;
    cbn [backoff_trace seconds_slept].
  - rewrite Nat.add_0_r. lia.
  - rewrite IH. replace (S from + n)%nat with (from + S n)%nat by lia.
    replace (Z.of_nat (S from)) with (Z.of_nat from + 1)%Z by lia.
    rewrite Z.pow_add_r by lia. lia.
Qed.

(** X13.  [_call_deepseek] returns the answer of the first attempt that
    does not raise, provided it comes within [retries] attempts: when the
    attempts before the [k]-th fail and the [k]-th answers, the result is
    that answer after [k + 1] calls, with a sleep of 1, 2, 4, ... seconds
    after each failure, [2^k - 1] seconds in all, and no call after the
    answer. *)
Theorem call_deepseek_first_answer (api : nat -> Attempt) (retries : Z)
    (k : nat) (content : string)
    (Hk : (Z.of_nat k < retries)%Z)
    (Hfail : forall j, (j < k)%nat -> api j = Raised)
    (Hok : api k = Answered content) :
  _call_deepseek api retries = (content, backoff_trace 0 k) /\
  calls_made (snd (_call_deepseek api retries)) = S k /\
  seconds_slept (snd (_call_deepseek api retries)) = (2 ^ Z.of_nat k - 1)%Z.
Proof.
  assert (E : _call_deepseek api retries = (content, backoff_trace 0 k)).
  { unfold _call_deepseek. apply attempts_from_answer; cbn; auto; lia. }
  rewrite E. cbn [snd]. split; [reflexivity|].
  split; [apply backoff_trace_calls|].
  rewrite backoff_trace_slept. cbn. lia.
Qed.

Lemma call_deepseek_first_answer_witness :
  _call_deepseek third_time_lucky 3
  = ("{}", [Called 0; Slept 1; Called 1; Slept 2; Called 2]).
Proof.
  apply (call_deepseek_first_answer third_time_lucky 3 2 "{}").
  - lia.
  - intros [|[|j]] Hj; [reflexivity|reflexivity|lia].
  - reflexivity.
Defined.

(** X14.  [_call_deepseek] gives up after [retries] attempts: when they all
    raise, it returns the empty string and raises nothing, having made
    exactly [retries] calls and slept after each but the last,
    [2^(retries-1) - 1] seconds in all; with [retries <= 0] it returns the
    empty string without calling the API at all. *)
Theorem call_deepseek_gives_up (api : nat -> Attempt) (retries : Z)
    (Hfail : forall j, (Z.of_nat j < retries)%Z -> api j = Raised) :
  fst (_call_deepseek api retries) = "" /\
  calls_made (snd (_call_deepseek api retries)) = Z.to_nat retries /\
  ((0 < retries)%Z ->
   snd (_call_deepseek api retries) = backoff_trace 0 (Z.to_nat retries - 1) /\
   seconds_slept (snd (_call_deepseek api retries))
   = (2 ^ (retries - 1) - 1)%Z) /\
  ((retries <= 0)%Z -> snd (_call_deepseek api retries) = []).
Proof.
  unfold _call_deepseek.
  destruct (Z.to_nat retries) as [|n] eqn:En.
  - cbn. split; [reflexivity|]. split; [reflexivity|].
    split; [lia|reflexivity].
  - rewrite (attempts_from_exhausted api retries 0 n);
      [|cbn; lia | intros j Hj; apply Hfail; cbn; lia].
    cbn [fst snd]. split; [reflexivity|].
    split; [apply backoff_trace_calls|]. split; [|lia].
    intros _. replace (S n - 1)%nat with n by lia. split; [reflexivity|].
    rewrite backoff_trace_slept. cbn [Nat.add].
    replace (Z.of_nat n) with (retries - 1)%Z by lia. cbn. lia.
Qed.

Lemma call_deepseek_gives_up_witness :
  _call_deepseek (fun _ => Raised) 3
  = ("", [Called 0; Slept 1; Called 1; Slept 2; Called 2]).
Proof.
  pose proof (call_deepseek_gives_up (fun _ => Raised) 3 (fun _ _ => eq_refl))
    as (Hres & _ & Htrace & _).
  destruct (Htrace ltac:(lia)) as [Htr _].
  destruct (_call_deepseek (fun _ => Raised) 3) as [result trace].
  cbn [fst snd] in *. now subst.
Defined.

(** * Answers of the language model *)

Lemma append_cons (c : Ascii.ascii) (a b : string) :
  String c a ++ b = String c (a ++ b).
Proof. reflexivity. Qed.

Lemma string_length_app (a b : string) :
  String.length (a ++ b) = (String.length a + String.length b)%nat.
Proof.
  induction a as [|c a IH]; [reflexivity|].
  rewrite append_cons. cbn [String.length Nat.add]. now f_equal.
Qed.

Lemma string_app_assoc (a b c : string) : (a ++ b) ++ c = a ++ (b ++ c).
Proof.
  induction a as [|x a IH]; [reflexivity|].
  rewrite !append_cons. now f_equal.
Qed.

Lemma string_app_nil_r (a : string) : a ++ "" = a.
Proof.
  induction a as [|x a IH]; [reflexivity|].
  rewrite append_cons. now f_equal.
Qed.

Lemma prefix_app (p s : string) : String.prefix p (p ++ s) = true.
Proof.
  induction p as [|c p IH]; [now destruct s|].
  rewrite append_cons. cbn [String.prefix].
  destruct (Ascii.ascii_dec c c); [exact IH|contradiction].
Qed.

Lemma substring_whole (b s : string) :
  String.substring 0 (String.length b) (b ++ s) = b.
Proof.
  induction b as [|c b IH].
  - cbn. now destruct s.
  - rewrite append_cons. cbn [String.length String.substring]. now f_equal.
Qed.

Lemma substring_middle (p b s : string) :
  String.substring (String.length p) (String.length b) (p ++ b ++ s) = b.
Proof.
  induction p as [|c p IH]; [exact (substring_whole b s)|].
  rewrite append_cons. cbn [String.length String.substring]. exact IH.
Qed.

Lemma prefix_cons (c1 c2 : Ascii.ascii) (s1 s2 : string) :
  String.prefix (String c1 s1) (String c2 s2)
  = if Ascii.ascii_dec c1 c2 then String.prefix s1 s2 else false.
Proof. reflexivity. Qed.

Lemma prefix_nil (s : string) : String.prefix "" s = true.
Proof. now destruct s. Qed.

Lemma prefix_app_cancel (a b s : string) :
  String.prefix (a ++ b) (a ++ s) = String.prefix b s.
Proof.
  induction a as [|c a IH]; [reflexivity|].
  rewrite !append_cons, prefix_cons.
  destruct (Ascii.ascii_dec c c); [exact IH|contradiction].
Qed.

Lemma prefix_app_false (a b s : string) :
  String.prefix a s = false -> String.prefix (a ++ b) s = false.
Proof.
  revert s. induction a as [|c a IH]; intros s H.
  - now rewrite prefix_nil in H.
  - rewrite append_cons. destruct s as [|d s]; [reflexivity|].
    rewrite prefix_cons in *. destruct (Ascii.ascii_dec c d); auto.
Qed.

(** A body that does not begin with [json] does not come to begin with it
    when the closing fence is appended. *)
Lemma json_not_completed_by_fence (body : string) :
  String.prefix "json" body = false ->
  String.prefix "json" (body ++ "```") = false.
Proof.
  intros H.
  repeat (destruct body as [|? body];
          [reflexivity|];
          rewrite append_cons, prefix_cons in *;
          match goal with
          | |- context [Ascii.ascii_dec ?x ?y] =>
              destruct (Ascii.ascii_dec x y); [|reflexivity]
          end).
  now rewrite prefix_nil in H.
Qed.

Lemma endswith_app (p suffix : string) : endswith suffix (p ++ suffix) = true.
Proof.
  unfold endswith. rewrite string_length_app.
  apply andb_true_intro. split; [apply Nat.leb_le; lia|].
  replace (String.length p + String.length suffix - String.length suffix)%nat
    with (String.length p) by lia.
  apply String.eqb_eq.
  pose proof (substring_middle p suffix "") as H.
  now rewrite string_app_nil_r in H.
Qed.

Lemma slice_fenced (opening body closing : string) :
  slice (String.length opening) (String.length closing)
    (opening ++ body ++ closing) = body.
Proof.
  unfold slice. rewrite !string_length_app.
  replace (String.length opening + (String.length body + String.length closing)
           - String.length closing - String.length opening)%nat
    with (String.length body) by lia.
  apply substring_middle.
Qed.

(** X15.  [_parse_json_response] parses what is inside a code fence: an
    answer [```json body ```] is parsed as the stripped [body], and so is
    an answer [``` body ```] whose body does not itself begin with
    [json]; an answer that does not begin with a fence goes to the parser
    as it is, not stripped.  What the parser returns is returned; when it
    raises [JSONDecodeError] the result is the fallback; any other
    exception it raises leaves [_parse_json_response]. *)
Theorem parse_json_response_unwraps_fences {J E : Type}
    (loads : string -> Loaded J E) (strip : string -> string) (fallback : J) :
  (forall body,
     _parse_json_response loads strip ("```json" ++ body ++ "```") fallback
     = except_JSONDecodeError (loads (strip body)) fallback) /\
  (forall body,
     startswith "json" body = false ->
     _parse_json_response loads strip ("```" ++ body ++ "```") fallback
     = except_JSONDecodeError (loads (strip body)) fallback) /\
  (forall text,
     startswith "```" text = false ->
     _parse_json_response loads strip text fallback
     = except_JSONDecodeError (loads text) fallback) /\
  (forall text parsed,
     loads (unfenced strip text) = Parsed parsed ->
     _parse_json_response loads strip text fallback = Returns parsed) /\
  (forall text,
     loads (unfenced strip text) = JSONDecodeError ->
     _parse_json_response loads strip text fallback = Returns fallback) /\
  (forall text e,
     loads (unfenced strip text) = OtherException e ->
     _parse_json_response loads strip text fallback = Raises e).
Proof.
  split; [|split; [|split; [|split; [|split]]]].
  - intros body. unfold _parse_json_response, unfenced, startswith.
    rewrite (prefix_app "```json" (body ++ "```")).
    rewrite <- string_app_assoc, endswith_app, string_app_assoc.
    cbn [andb].
    change 7%nat with (String.length "```json").
    change 3%nat with (String.length "```") at 1.
    now rewrite slice_fenced.
  - intros body Hbody. unfold _parse_json_response, unfenced, startswith in *.
    assert (Hjson : String.prefix "```json" ("```" ++ body ++ "```") = false).
    { change "```json" with ("```" ++ "json"). rewrite prefix_app_cancel.
      now apply json_not_completed_by_fence. }
    rewrite Hjson. cbn [andb].
    rewrite (prefix_app "```" (body ++ "```")).
    rewrite <- string_app_assoc, endswith_app, string_app_assoc.
    cbn [andb].
    change 3%nat with (String.length "```").
    now rewrite slice_fenced.
  - intros text Htext. unfold _parse_json_response, unfenced, startswith in *.
    assert (Hjson : String.prefix "```json" text = false).
    { change "```json" with ("```" ++ "json"). now apply prefix_app_false. }
    now rewrite Hjson, Htext.
  - intros text parsed H. unfold _parse_json_response. now rewrite H.
  - intros text H. unfold _parse_json_response. now rewrite H.
  - intros text e H. unfold _parse_json_response. now rewrite H.
Qed.

(** X16.  When every attempt to reach the API fails, the caller gets its
    fallback: [_call_deepseek] returns the empty string, which the parser
    rejects with [JSONDecodeError], and [_parse_json_response] returns the
    fallback it was given. *)
Theorem failed_calls_yield_fallback {J E : Type}
    (loads : string -> Loaded J E) (strip : string -> string)
    (api : nat -> Attempt) (retries : Z) (fallback : J)
    (Hfail : forall j, (Z.of_nat j < retries)%Z -> api j = Raised)
    (Hempty : loads "" = JSONDecodeError) :
  _parse_json_response loads strip (fst (_call_deepseek api retries)) fallback
  = Returns fallback.
Proof.
  assert (Hnone : fst (_call_deepseek api retries) = "").
  { unfold _call_deepseek.
    destruct (Z.to_nat retries) as [|n] eqn:En; [reflexivity|].
    rewrite (attempts_from_exhausted api retries 0 n);
      [reflexivity | cbn; lia | intros j Hj; apply Hfail; cbn; lia]. }
  rewrite Hnone. unfold _parse_json_response.
  change (unfenced strip "") with "". now rewrite Hempty.
Qed.

Lemma failed_calls_yield_fallback_witness :
  _parse_json_response (fun _ : string => @JSONDecodeError nat unit)
    (fun s => s) (fst (_call_deepseek (fun _ => Raised) 3)) 7%nat
  = Returns 7%nat.
Proof.
  apply (failed_calls_yield_fallback (fun _ : string => @JSONDecodeError nat unit)
           (fun s => s) (fun _ => Raised) 3 7%nat).
  - reflexivity.
  - reflexivity.
Defined.

(** * Validation of launch data *)

Lemma first_missing_None {V : Type} (truthy : V -> bool)
    (required : list string) (data : gmap string V) :
  first_missing truthy required data = None <->
  Forall (fun field => exists v, data !! field = Some v /\ truthy v = true)
    required.
Proof.
  induction required as [|field rest IH]; cbn [first_missing].
  - split; [constructor|reflexivity].
  - unfold missing at 1. rewrite Forall_cons.
    destruct (data !! field) as [v|] eqn:E.
    + destruct (truthy v) eqn:Ev; cbn [negb].
      * rewrite IH. split; [intros H; split; eauto | intros [_ H]; exact H].
      * split; [discriminate|]. intros [(v' & [= <-] & Hv) _]. congruence.
    + split; [discriminate|]. intros [(v' & Hv & _) _]. discriminate.
Qed.

Lemma first_missing_Some {V : Type} (truthy : V -> bool)
    (required : list string) (data : gmap string V) (field : string) :
  first_missing truthy required data = Some field <->
  exists before after,
    required = (before ++ field :: after)%list /\
    missing truthy data field = true /\
    Forall (fun f => missing truthy data f = false) before.
Proof.
  induction required as [|f rest IH]; cbn [first_missing].
  - split; [discriminate|]. intros ([|? ?] & after & H & _); discriminate.
  - destruct (missing truthy data f) eqn:E.
    + split.
      * intros [= <-]. exists [], rest. repeat split; [exact E|constructor].
      * intros ([|b before] & after & Heq & Hm & Hb).
        -- injection Heq as -> _. reflexivity.
        -- injection Heq as <- _. apply Forall_cons in Hb as [Hb _].
           congruence.
    + rewrite IH. split.
      * intros (before & after & -> & Hm & Hb).
        exists (f :: before), after. repeat split; [exact Hm|].
        now constructor.
      * intros ([|b before] & after & Heq & Hm & Hb).
        -- injection Heq as -> _. congruence.
        -- injection Heq as <- ->. apply Forall_cons in Hb as [_ Hb].
           exists before, after. auto.
Qed.

(** X17.  [_validate_coin_data] and [_validate_social_content] accept
    exactly the dicts in which every required field is present with a
    truthy value; otherwise they raise, and the message names the first
    required field, in the order of the list, that is absent or falsy. *)
Theorem launch_validators_report_first_missing_field {V : Type}
    (truthy : V -> bool) (data : gmap string V) :
  (_validate_coin_data truthy data = None <->
   Forall (fun field => exists v, data !! field = Some v /\ truthy v = true)
     ["name"; "symbol"; "description"; "image_url"; "creator_wallet_address"])
  /\
  (_validate_social_content truthy data = None <->
   Forall (fun field => exists v, data !! field = Some v /\ truthy v = true)
     ["twitter_text"; "telegram_text"; "discord_text"]) /\
  (forall message,
     _validate_coin_data truthy data = Some message ->
     exists before field after,
       ["name"; "symbol"; "description"; "image_url"; "creator_wallet_address"]
       = (before ++ field :: after)%list /\
       message = "Missing required field: " ++ field /\
       missing truthy data field = true /\
       Forall (fun f => missing truthy data f = false) before) /\
  (forall message,
     _validate_social_content truthy data = Some message ->
     exists before field after,
       ["twitter_text"; "telegram_text"; "discord_text"]
       = (before ++ field :: after)%list /\
       message = "Missing required social content field: " ++ field /\
       missing truthy data field = true /\
       Forall (fun f => missing truthy data f = false) before).
Proof.
  unfold _validate_coin_data, _validate_social_content.
  split; [|split; [|split]].
  - rewrite <- first_missing_None.
    destruct (first_missing truthy _ data); split; congruence.
  - rewrite <- first_missing_None.
    destruct (first_missing truthy _ data); split; congruence.
  - intros message.
    destruct (first_missing truthy _ data) as [field|] eqn:E; [|discriminate].
    intros [= <-]. apply first_missing_Some in E
      as (before & after & Heq & Hm & Hb).
    exists before, field, after. auto.
  - intros message.
    destruct (first_missing truthy _ data) as [field|] eqn:E; [|discriminate].
    intros [= <-]. apply first_missing_Some in E
      as (before & after & Heq & Hm & Hb).
    exists before, field, after. auto.
Qed.

(** X18.  [validate_launch_form] accepts a form exactly when name, symbol,
    description and initial SOL amount are all filled in and the amount
    reads as a number that is not zero or below; the data it returns are
    the stripped fields, the symbol in upper case and a missing image URL
    read as empty.  A field left empty is reported before the amount is
    looked at. *)
Theorem validate_launch_form_accepts {F : Type}
    (float_of : string -> option F) (nonpositive : F -> bool)
    (strip upper : string -> string) (form_data : gmap string string) :
  let result := validate_launch_form float_of nonpositive strip upper form_data in
  (forall name symbol description image_url amount,
     result = Valid name symbol description image_url amount <->
     (exists n s d a,
        form_data !! "name" = Some n /\ n <> "" /\
        form_data !! "symbol" = Some s /\ s <> "" /\
        form_data !! "description" = Some d /\ d <> "" /\
        form_data !! "initial_sol_amount" = Some a /\ a <> "" /\
        float_of a = Some amount /\ nonpositive amount = false /\
        name = strip n /\ symbol = upper (strip s) /\
        description = strip d /\
        image_url = strip (default "" (form_data !! "image_url")))) /\
  (forall field,
     first_missing nonempty
       ["name"; "symbol"; "description"; "initial_sol_amount"] form_data
     = Some field ->
     result = Invalid (field ++ " is required")).
Proof.
  intros result. subst result. unfold validate_launch_form. split.
  2:{ intros field ->. reflexivity. }
  intros name symbol description image_url amount.
  destruct (first_missing nonempty _ form_data) as [field|] eqn:E.
  - split; [discriminate|].
    intros (n & s & d & a & Hn & Hn' & Hs & Hs' & Hd & Hd' & Ha & Ha' & _).
    assert (H : first_missing nonempty
                  ["name"; "symbol"; "description"; "initial_sol_amount"]
                  form_data = None).
    { apply first_missing_None. unfold nonempty.
      repeat constructor; eexists; (split; [eassumption|]);
        apply negb_true_iff, String.eqb_neq; assumption. }
    congruence.
  - apply first_missing_None in E.
    apply Forall_cons in E as [(n & Hn & Hn') E].
    apply Forall_cons in E as [(s & Hs & Hs') E].
    apply Forall_cons in E as [(d & Hd & Hd') E].
    apply Forall_cons in E as [(a & Ha & Ha') _].
    unfold nonempty in *.
    apply negb_true_iff, String.eqb_neq in Hn', Hs', Hd', Ha'.
    rewrite Hn, Hs, Hd, Ha. cbn [default from_option Datatypes.id].
    destruct (float_of a) as [x|] eqn:Ef.
    2:{ split; [discriminate|].
        intros (? & ? & ? & a' & _ & _ & _ & _ & _ & _ & [= <-] & _ & Hf & _).
        congruence. }
    destruct (nonpositive x) eqn:Ex.
    + split; [discriminate|].
      intros (? & ? & ? & a' & _ & _ & _ & _ & _ & _ & [= <-] & _ & Hf & Hx & _).
      congruence.
    + split.
      * intros [= <- <- <- <- <-]. exists n, s, d, a. repeat split; auto.
      * intros (n' & s' & d' & a' & [= <-] & _ & [= <-] & _ & [= <-] & _
                & [= <-] & _ & Hf & _ & -> & -> & -> & ->).
        rewrite Ef in Hf. injection Hf as <-. reflexivity.
Qed.

(** * Webhooks *)

Lemma not_prefixed_ne (p k rest : string) :
  String.prefix p k = false -> k <> p ++ rest.
Proof. intros H ->. now rewrite prefix_app in H. Qed.

Lemma twitter_pre_launch_key (settings : NeightNSettings) (day : string) :
  n8n_webhook_urls settings !! ("twitter_pre_launch_day" ++ day) =
  if String.eqb day "7"
  then Some (N8N_TWITTER_PRE_LAUNCH_DAY7_WEBHOOK_URL settings)
  else if String.eqb day "1"
  then Some (N8N_TWITTER_PRE_LAUNCH_DAY1_WEBHOOK_URL settings)
  else None.
Proof.
  unfold n8n_webhook_urls.
  rewrite !(lookup_insert_ne _ _ ("twitter_pre_launch_day" ++ day))
    by (apply not_prefixed_ne; reflexivity).
  destruct (String.eqb_spec day "7") as [->|H7].
  { change ("twitter_pre_launch_day" ++ "7") with "twitter_pre_launch_day7".
    apply lookup_insert_eq. }
  rewrite lookup_insert_ne.
  2:{ change "twitter_pre_launch_day7" with ("twitter_pre_launch_day" ++ "7").
      intros E. apply String.app_inj in E. congruence. }
  destruct (String.eqb_spec day "1") as [->|H1].
  { change ("twitter_pre_launch_day" ++ "1") with "twitter_pre_launch_day1".
    apply lookup_insert_eq. }
  rewrite lookup_insert_ne.
  2:{ change "twitter_pre_launch_day1" with ("twitter_pre_launch_day" ++ "1").
      intros E. apply String.app_inj in E. congruence. }
  rewrite lookup_insert_ne by (apply not_prefixed_ne; reflexivity).
  apply lookup_empty.
Qed.

(** X19.  [post_pre_launch_tweet] reaches a webhook for two days only:
    when the day prints as [7] or as [1] and the URL configured for that
    day is not empty, it posts once, to that URL, and returns what the post
    returned; for any other day, day [3] included, and for an empty URL, it
    returns [False] and sends nothing. *)
Theorem post_pre_launch_tweet_days {P D : Type}
    (post : string -> P -> bool)
    (pre_launch_payload : string -> option string -> D -> P)
    (format_day : D -> string) (settings : NeightNSettings)
    (day_identifier : D) (text : string) (image_url : option string) :
  let result :=
    post_pre_launch_tweet post pre_launch_payload format_day settings
      day_identifier text image_url in
  let payload := pre_launch_payload text image_url day_identifier in
  let url7 := N8N_TWITTER_PRE_LAUNCH_DAY7_WEBHOOK_URL settings in
  let url1 := N8N_TWITTER_PRE_LAUNCH_DAY1_WEBHOOK_URL settings in
  (format_day day_identifier = "7" -> url7 <> "" ->
   result = (post url7 payload, [(url7, payload)])) /\
  (format_day day_identifier = "1" -> url1 <> "" ->
   result = (post url1 payload, [(url1, payload)])) /\
  (format_day day_identifier <> "7" -> format_day day_identifier <> "1" ->
   result = (false, [])) /\
  (format_day day_identifier = "7" -> url7 = "" -> result = (false, [])) /\
  (format_day day_identifier = "1" -> url1 = "" -> result = (false, [])).
Proof.
  intros result payload url7 url1. subst result.
  unfold post_pre_launch_tweet, _send_webhook.
  rewrite twitter_pre_launch_key. fold payload url7 url1.
  repeat split.
  - intros -> Hurl. cbn. apply String.eqb_neq in Hurl. now rewrite Hurl.
  - intros -> Hurl. cbn. apply String.eqb_neq in Hurl. now rewrite Hurl.
  - intros H7 H1. apply String.eqb_neq in H7, H1. now rewrite H7, H1.
  - intros -> ->. reflexivity.
  - intros -> ->. reflexivity.
Qed.
